(** * Credentials and sessions of the social-feed backend

    A shallow embedding of the password-hash utility
    ([utils/password-hash]: [buf2hex], [hex2buf], [constantTimeEqual],
    [hashPassword], [verifyPassword]) and of the session handling of the
    route layer ([getUserFromSession] and the [/api/auth/*] handlers),
    followed by the properties of the credential and session subsystem.

    Platform services are inputs of the model: the PBKDF2 implementation
    behind [crypto.subtle.deriveBits], [TextEncoder.encode], the bytes
    [crypto.getRandomValues] produces, the UUID [crypto.randomUUID]
    returns, the clock readings and the time zone of the runtime. *)

From Stdlib Require Import String Ascii List NArith ZArith Bool Lia.
From Stdlib Require Import Decimal DecimalN.
From Stdlib.Strings Require Byte.
Import ListNotations.

Local Open Scope N_scope.

(** ** JavaScript values *)

Module JS.

(** A JS string is a sequence of UTF-16 code units. The code units of a
    real string are below 65536, so the 32-bit operators [^] and [|]
    applied to them never truncate. *)
Definition code_unit := N.
Definition jsstring := list code_unit.

(** String literals of the source. *)
Definition str (s : string) : jsstring :=
  map N_of_ascii (list_ascii_of_string s).

(** What a [throw] carries: [new Error(message)] of the source, or an
    exception raised inside the platform (WebCrypto, D1). *)
Inductive exn : Type :=
| Error_ (message : string)
| PlatformError (name : string).

Inductive result (A : Type) : Type :=
| Ok (a : A)
| Throw (e : exn).
Arguments Ok {A} a.
Arguments Throw {A} e.

Definition bind {A B} (r : result A) (k : A -> result B) : result B :=
  match r with
  | Ok a => k a
  | Throw e => Throw e
  end.

(** Number values as far as this code meets them. [Int n] is the
    integer [n], which a double holds exactly up to 2^53. [NonInt src]
    stands for [Number(src)] where [src] is not a plain digit string
    below that bound; its value is left to the platform. *)
Inductive number : Type :=
| Int (n : N)
| NonInt (src : jsstring).

(** [s.charCodeAt(i)]; out of range it is NaN, which the bit operators
    read as 0. *)
Definition charCodeAt (s : jsstring) (i : nat) : code_unit := nth i s 0.

(** [s.slice(i, j)] for [0 <= i <= j]. *)
Definition slice (s : jsstring) (i j : nat) : jsstring :=
  firstn (j - i) (skipn i s).

(** [s.split(sep)] for a separator of one code unit. *)
Fixpoint split (sep : code_unit) (s : jsstring) : list jsstring :=
  match s with
  | [] => [[]]
  | c :: s' =>
      if c =? sep then [] :: split sep s'
      else match split sep s' with
           | p :: ps => (c :: p) :: ps
           | [] => [[c]]
           end
  end.

(** [s.padStart(2, '0')]. *)
Definition padStart2 (s : jsstring) : jsstring :=
  repeat 48 (2 - length s) ++ s.

(** [n.toString(16)] for [n < 256]. *)
Definition hexDigit (n : N) : code_unit :=
  nth (N.to_nat n) (str "0123456789abcdef") 0.

Definition toString16 (n : N) : jsstring :=
  if n <? 16 then [hexDigit n] else [hexDigit (n / 16); hexDigit (n mod 16)].

(** [String(n)] and template interpolation of a non-negative integer
    below 10^21: its decimal digits. *)
Fixpoint digits_of_uint (d : uint) : jsstring :=
  match d with
  | Nil => []
  | D0 d => 48 :: digits_of_uint d
  | D1 d => 49 :: digits_of_uint d
  | D2 d => 50 :: digits_of_uint d
  | D3 d => 51 :: digits_of_uint d
  | D4 d => 52 :: digits_of_uint d
  | D5 d => 53 :: digits_of_uint d
  | D6 d => 54 :: digits_of_uint d
  | D7 d => 55 :: digits_of_uint d
  | D8 d => 56 :: digits_of_uint d
  | D9 d => 57 :: digits_of_uint d
  end.

Definition toString10 (n : N) : jsstring := digits_of_uint (N.to_uint n).

(** Reading a string of decimal digits. *)
Definition decimalDigit (c : code_unit) : option (uint -> uint) :=
  match c with
  | 48 => Some D0 | 49 => Some D1 | 50 => Some D2 | 51 => Some D3
  | 52 => Some D4 | 53 => Some D5 | 54 => Some D6 | 55 => Some D7
  | 56 => Some D8 | 57 => Some D9
  | _ => None
  end.

Fixpoint uint_of_digits (s : jsstring) : option uint :=
  match s with
  | [] => Some Nil
  | c :: s' =>
      match decimalDigit c, uint_of_digits s' with
      | Some d, Some u => Some (d u)
      | _, _ => None
      end
  end.

(** [Number(s)]. The empty string and digit strings are read exactly
    (leading zeros allowed); every other spelling, and digit strings
    above 2^53 where the double rounds, stay symbolic. *)
Definition Number_ (s : jsstring) : number :=
  match uint_of_digits s with
  | Some u => let n := N.of_uint u in
              if n <=? 2 ^ 53 then Int n else NonInt s
  | None => NonInt s
  end.

(** [parseInt(s, 16)]: skip leading white space, read a sign, skip a
    [0x]/[0X] prefix, read the longest run of hexadecimal digits.
    [None] is NaN. Exact while the value fits a double, which covers
    the two-character slices it is applied to here. *)
Definition isWhiteSpace (c : code_unit) : bool :=
  existsb (N.eqb c)
    [9; 10; 11; 12; 13; 32; 160; 5760; 8192; 8193; 8194; 8195; 8196;
     8197; 8198; 8199; 8200; 8201; 8202; 8232; 8233; 8239; 8287;
     12288; 65279].

Fixpoint trimStart (s : jsstring) : jsstring :=
  match s with
  | c :: s' => if isWhiteSpace c then trimStart s' else s
  | [] => []
  end.

Definition hexDigitValue (c : code_unit) : option N :=
  if (48 <=? c) && (c <=? 57) then Some (c - 48)
  else if (97 <=? c) && (c <=? 102) then Some (c - 87)
  else if (65 <=? c) && (c <=? 70) then Some (c - 55)
  else None.

Fixpoint hexRun (acc : option N) (s : jsstring) : option N :=
  match s with
  | [] => acc
  | c :: s' =>
      match hexDigitValue c with
      | Some d =>
          hexRun (Some (match acc with Some a => 16 * a + d | None => d end)) s'
      | None => acc
      end
  end.

Definition parseInt16 (s : jsstring) : option Z :=
  let s1 := trimStart s in
  let '(sign, s2) :=
    match s1 with
    | 45 :: r => ((-1)%Z, r)
    | 43 :: r => (1%Z, r)
    | _ => (1%Z, s1)
    end in
  let s3 :=
    match s2 with
    | 48 :: x :: r => if (x =? 120) || (x =? 88) then r else s2
    | _ => s2
    end in
  match hexRun None s3 with
  | Some v => Some (sign * Z.of_N v)%Z
  | None => None
  end.

(** Storing into a [Uint8Array] element: NaN becomes 0, any other
    value is reduced modulo 256. *)
Definition toUint8 (v : option Z) : Byte.byte :=
  match v with
  | None => Byte.x00
  | Some z =>
      match Byte.of_N (Z.to_N (z mod 256)) with
      | Some b => b
      | None => Byte.x00
      end
  end.

End JS.

Export JS.

Declare Scope js_scope.
Notation "x <- r ;; k" := (bind r (fun x => k))
  (at level 61, r at next level, right associativity) : js_scope.
Local Open Scope js_scope.

(** ** utils/password-hash *)

Module PasswordHash.

Definition ITERATIONS : N := 100000.
Definition SALT_LEN : nat := 16.
Definition KEY_LEN : N := 32.

Definition buf2hex (buf : list Byte.byte) : jsstring :=
  concat (map (fun b => padStart2 (toString16 (Byte.to_N b))) buf).

Definition hex2buf (hex : jsstring) : result (list Byte.byte) :=
  if negb (Nat.eqb (length hex mod 2) 0) then
    Throw (Error_ "Invalid hex string")
  else
    Ok (map (fun i => toUint8 (parseInt16 (slice hex (i * 2) (i * 2 + 2))))
            (seq 0 (length hex / 2))).

(** The loop of [constantTimeEqual], one iteration per index. *)
Definition xorAccumulate (a b : jsstring) (result : N) (i : nat) : N :=
  N.lor result (N.lxor (charCodeAt a i) (charCodeAt b i)).

Definition constantTimeEqual (a b : jsstring) : bool :=
  if negb (Nat.eqb (length a) (length b)) then false
  else
    let result := fold_left (xorAccumulate a b) (seq 0 (length a)) 0 in
    result =? 0.

(** The same loop as a machine: the state is the pair of the loop
    variables [(i, result)]; [None] when the loop condition fails. *)
Definition loopStep (a b : jsstring) (st : nat * N) : option (nat * N) :=
  let '(i, result) := st in
  if Nat.ltb i (length a) then Some (S i, xorAccumulate a b result i)
  else None.

(** Number of iterations executed from [st], with at most [fuel]. *)
Fixpoint loopIterations (a b : jsstring) (fuel : nat) (st : nat * N) : nat :=
  match fuel with
  | O => O
  | S fuel' =>
      match loopStep a b st with
      | Some st' => S (loopIterations a b fuel' st')
      | None => O
      end
  end.

(** The loop variables when the loop is left. *)
Fixpoint loopRun (a b : jsstring) (fuel : nat) (st : nat * N) : nat * N :=
  match fuel with
  | O => st
  | S fuel' =>
      match loopStep a b st with
      | Some st' => loopRun a b fuel' st'
      | None => st
      end
  end.

(** [crypto.getRandomValues(new Uint8Array(len))]: every element of the
    fresh array is overwritten with a byte of the random source. *)
Definition getRandomValues (random : nat -> Byte.byte) (len : nat)
  : list Byte.byte :=
  map random (seq 0 len).

Section Platform.

(** [new TextEncoder().encode]: the UTF-8 bytes of a string. *)
Variable encode : jsstring -> list Byte.byte.

(** [crypto.subtle.deriveBits] with PBKDF2 and SHA-256 on an imported
    raw key: key bytes, salt, iterations, length in bits. *)
Variable deriveBits :
  list Byte.byte -> list Byte.byte -> number -> N -> result (list Byte.byte).

(** [random] is the stream of bytes the random source delivers to this
    call. *)
Definition hashPassword (password : jsstring) (random : nat -> Byte.byte)
  : result jsstring :=
  let salt := getRandomValues random SALT_LEN in
  let keyMaterial := encode password in
  bits <- deriveBits keyMaterial salt (Int ITERATIONS) (KEY_LEN * 8) ;;
  Ok (buf2hex salt ++ str ":" ++ buf2hex bits ++ str ":"
        ++ toString10 ITERATIONS).

(** [(hashHex.length / 2) * 8] is computed on doubles, so an odd
    length gives a length in bits that is no multiple of 8. *)
Definition verifyPassword (password stored : jsstring) : result bool :=
  match split 58 stored with
  | [saltHex; hashHex; iterStr] =>
      salt <- hex2buf saltHex ;;
      let iterations := Number_ iterStr in
      let keyMaterial := encode password in
      bits <- deriveBits keyMaterial salt iterations
                (N.of_nat (length hashHex) * 4) ;;
      Ok (constantTimeEqual (buf2hex bits) hashHex)
  | _ => Throw (Error_ "Bad hash format")
  end.

End Platform.

End PasswordHash.

Export PasswordHash.


(** ** The route layer: sessions and the [/api/auth] endpoints *)

Module Index.

Local Open Scope Z_scope.

Fixpoint jsstring_eqb (a b : jsstring) : bool :=
  match a, b with
  | [], [] => true
  | x :: a', y :: b' => N.eqb x y && jsstring_eqb a' b'
  | _, _ => false
  end.

(** Rows of [usersTable] and [sessionsTable]. *)
Record user_row : Type := mkUser {
  id : Z;
  email : jsstring;
  password : jsstring;
  username : jsstring;
  description : option jsstring;
  profile_photo : option jsstring
}.

Record session_row : Type := mkSession {
  session_id : Z;
  user_id : Z;
  token : jsstring;
  created_at : Z;
  expires_at : Z
}.

(** The prepared statements the modelled handlers run. *)
Inductive statement : Type :=
| SelectSessionByToken (t : jsstring)
| DeleteSessionByToken (t : jsstring)
| SelectUserById (i : Z)
| SelectUserIdByEmail (e : jsstring)
| SelectUserIdByUsername (n : jsstring)
| SelectUserByEmail (e : jsstring)
| InsertUser (e p n : jsstring)
| InsertSession (u : Z) (t : jsstring) (c x : Z).

(** The D1 database: the two tables, their AUTOINCREMENT counters, and
    the statements executed so far, oldest first. The tables exist:
    [ensureSchema] creates them when missing and touches no row. *)
Record database : Type := mkDB {
  users : list user_row;
  sessions : list session_row;
  user_seq : Z;
  session_seq : Z;
  statements : list statement
}.

Definition run (q : statement) (db : database) : database :=
  mkDB (users db) (sessions db) (user_seq db) (session_seq db)
       (statements db ++ [q]).

Definition with_sessions (l : list session_row) (db : database) : database :=
  mkDB (users db) l (user_seq db) (session_seq db) (statements db).

(** [SELECT user_id, expires_at FROM sessions WHERE token = ?] *)
Definition selectSessions (t : jsstring) (db : database) : list session_row :=
  filter (fun s => jsstring_eqb (token s) t) (sessions db).

(** [DELETE FROM sessions WHERE token = ?] *)
Definition deleteSessions (t : jsstring) (db : database) : database :=
  with_sessions (filter (fun s => negb (jsstring_eqb (token s) t)) (sessions db))
                (run (DeleteSessionByToken t) db).

(** [SELECT ... FROM users WHERE id = ?] *)
Definition selectUsersById (i : Z) (db : database) : list user_row :=
  filter (fun u => Z.eqb (id u) i) (users db).

Definition selectUsersByEmail (e : jsstring) (db : database) : list user_row :=
  filter (fun u => jsstring_eqb (email u) e) (users db).

Definition selectUsersByUsername (n : jsstring) (db : database) : list user_row :=
  filter (fun u => jsstring_eqb (username u) n) (users db).

(** [INSERT INTO sessions (user_id, token, created_at, expires_at)]; the
    column [token] is UNIQUE, so a second row with the token is refused. *)
Definition insertSession (u : Z) (t : jsstring) (c x : Z) (db : database)
  : result unit * database :=
  let db1 := run (InsertSession u t c x) db in
  match selectSessions t db with
  | _ :: _ => (Throw (PlatformError "SQLITE_CONSTRAINT"), db1)
  | [] =>
      let i := session_seq db + 1 in
      (Ok tt, mkDB (users db1) (sessions db1 ++ [mkSession i u t c x])
                   (user_seq db1) i (statements db1))
  end.

(** [db.insert(usersTable).values({ email, password, username }).returning()];
    [email] and [username] are UNIQUE. *)
Definition insertUser (e p n : jsstring) (db : database)
  : result user_row * database :=
  let db1 := run (InsertUser e p n) db in
  match selectUsersByEmail e db, selectUsersByUsername n db with
  | [], [] =>
      let i := user_seq db + 1 in
      let u := mkUser i e p n None None in
      (Ok u, mkDB (users db1 ++ [u]) (sessions db1) i (session_seq db1)
                  (statements db1))
  | _, _ => (Throw (PlatformError "SQLITE_CONSTRAINT"), db1)
  end.

(** The object [getUserFromSession] returns and the JSON bodies. *)
Record user_view : Type := mkView {
  view_id : Z;
  view_email : jsstring;
  view_username : jsstring;
  view_description : option jsstring;
  view_profilePhoto : option jsstring
}.

Inductive response : Type :=
| json_error (error : string) (status : Z)
| json_user (u : user_view)
| json_success
| json_null.

(** What the handler does to the [session] cookie: [setCookie] with the
    token and the expiry date in milliseconds, or [deleteCookie]. *)
Inductive cookie_action : Type :=
| keepCookie
| setCookie (t : jsstring) (expires : Z)
| deleteCookie.

(** The rows [DELETE FROM sessions WHERE token = ?] leaves. *)
Definition keeps (t : jsstring) (s : session_row) : bool :=
  negb (jsstring_eqb (token s) t).

Section Runtime.

(** The offset of local time from UTC in milliseconds, [LocalTZA(t, isUTC)]
    of ECMAScript, and the day number of the first day of the month a
    day lies in (the Gregorian calendar as a table). *)
Variable LocalTZA : Z -> bool -> Z.
Variable monthStartDay : Z -> Z.

Definition msPerDay : Z := 86400000.
Definition Day (t : Z) : Z := t / msPerDay.
Definition TimeWithinDay (t : Z) : Z := t mod msPerDay.
Definition LocalTime (t : Z) : Z := t + LocalTZA t true.
Definition UTC (t : Z) : Z := t - LocalTZA t false.
Definition DateFromTime (t : Z) : Z := Day t - monthStartDay (Day t) + 1.
(** [MakeDay(YearFromTime(t), MonthFromTime(t), dt)] *)
Definition MakeDayInMonthOf (t dt : Z) : Z := monthStartDay (Day t) + dt - 1.
Definition MakeDate (day time : Z) : Z := day * msPerDay + time.

(** [Date.prototype.getDate] and [setDate] on a time value within the
    range of [Date] (no TimeClip). *)
Definition getDate (tv : Z) : Z := DateFromTime (LocalTime tv).
Definition setDate (tv dt : Z) : Z :=
  let t := LocalTime tv in
  UTC (MakeDate (MakeDayInMonthOf t dt) (TimeWithinDay t)).

(** [getUserFromSession]: [cookie] is [getCookie(c, 'session')]
    ([None] for undefined), [now] the reading of [Date.now()]. *)
Definition getUserFromSession (cookie : option jsstring) (now : Z)
  (db : database) : option user_view * database :=
  match cookie with
  | None | Some [] => (None, db)
  | Some t =>
      let db1 := run (SelectSessionByToken t) db in
      match selectSessions t db with
      | [] => (None, db1)
      | session :: _ =>
          let nowSeconds := now / 1000 in
          if nowSeconds >=? expires_at session then
            (None, deleteSessions t db1)
          else
            let userId := user_id session in
            let db2 := run (SelectUserById userId) db1 in
            match selectUsersById userId db with
            | [] => (None, db2)
            | user :: _ =>
                (Some (mkView (id user) (email user) (username user)
                              (description user) (profile_photo user)), db2)
            end
      end
  end.

(** The "Create session" block of the register and login handlers:
    [t] is [crypto.randomUUID()], [t0] the clock reading of [new Date()]
    and [t1] the later reading of [Date.now()]. *)
Definition createSession (userId : Z) (t : jsstring) (t0 t1 : Z)
  (db : database) : result cookie_action * database :=
  let expiresAtDate := t0 in
  let expiresAtDate := setDate expiresAtDate (getDate expiresAtDate + 30) in
  match insertSession userId t (t1 / 1000) (expiresAtDate / 1000) db with
  | (Ok _, db') => (Ok (setCookie t expiresAtDate), db')
  | (Throw e, db') => (Throw e, db')
  end.

Variable encode : jsstring -> list Byte.byte.
Variable deriveBits :
  list Byte.byte -> list Byte.byte -> number -> N -> result (list Byte.byte).

(** [POST /api/auth/register] on a body the validator accepted. *)
Definition register (email password username : jsstring)
  (random : nat -> Byte.byte) (t : jsstring) (t0 t1 : Z) (db : database)
  : result (response * cookie_action) * database :=
  let db1 := run (SelectUserIdByEmail email) db in
  match selectUsersByEmail email db with
  | _ :: _ => (Ok (json_error "User already exists" 400, keepCookie), db1)
  | [] =>
      let db2 := run (SelectUserIdByUsername username) db1 in
      match selectUsersByUsername username db with
      | _ :: _ => (Ok (json_error "Username already taken" 400, keepCookie), db2)
      | [] =>
          match hashPassword encode deriveBits password random with
          | Throw e => (Throw e, db2)
          | Ok hashed =>
              match insertUser email hashed username db2 with
              | (Throw e, db3) => (Throw e, db3)
              | (Ok user, db3) =>
                  match createSession (id user) t t0 t1 db3 with
                  | (Throw e, db4) => (Throw e, db4)
                  | (Ok cookie, db4) =>
                      (Ok (json_user (mkView (id user) (Index.email user)
                                       (Index.username user)
                                       (description user) None), cookie), db4)
                  end
              end
          end
      end
  end.

(** [POST /api/auth/login]. The row comes from [SELECT *], so it has no
    [profilePhoto] property and the body carries [null] there. *)
Definition login (email password : jsstring) (t : jsstring) (t0 t1 : Z)
  (db : database) : result (response * cookie_action) * database :=
  let db1 := run (SelectUserByEmail email) db in
  match selectUsersByEmail email db with
  | [] => (Ok (json_error "User not found" 404, keepCookie), db1)
  | user :: _ =>
      match verifyPassword encode deriveBits password (Index.password user) with
      | Throw e => (Throw e, db1)
      | Ok false => (Ok (json_error "Invalid credentials" 401, keepCookie), db1)
      | Ok true =>
          match createSession (id user) t t0 t1 db1 with
          | (Throw e, db2) => (Throw e, db2)
          | (Ok cookie, db2) =>
              (Ok (json_user (mkView (id user) (Index.email user)
                               (username user) (description user) None),
                   cookie), db2)
          end
      end
  end.

(** [POST /api/auth/logout] *)
Definition logout (cookie : option jsstring) (db : database)
  : result (response * cookie_action) * database :=
  match cookie with
  | None | Some [] => (Ok (json_success, keepCookie), db)
  | Some t => (Ok (json_success, deleteCookie), deleteSessions t db)
  end.

(** [GET /api/auth/me] *)
Definition me (cookie : option jsstring) (now : Z) (db : database)
  : result (response * cookie_action) * database :=
  match getUserFromSession cookie now db with
  | (None, db') => (Ok (json_null, keepCookie), db')
  | (Some user, db') => (Ok (json_user user, keepCookie), db')
  end.

(** A request to one of the four endpoints, with the values the
    platform hands to its handler. *)
Inductive request : Type :=
| Register (email password username : jsstring) (random : nat -> Byte.byte)
           (t : jsstring) (t0 t1 : Z)
| Login (email password : jsstring) (t : jsstring) (t0 t1 : Z)
| Logout (cookie : option jsstring)
| Me (cookie : option jsstring) (now : Z).

Definition handle (r : request) (db : database)
  : result (response * cookie_action) * database :=
  match r with
  | Register e p n random t t0 t1 => register e p n random t t0 t1 db
  | Login e p t t0 t1 => login e p t t0 t1 db
  | Logout c => logout c db
  | Me c now => me c now db
  end.

(** The database after a sequence of requests, served one at a time. *)
Definition serve (rs : list request) (db : database) : database :=
  fold_left (fun d r => snd (handle r d)) rs db.

(** The token a request hands to [createSession], if it can reach it. *)
Definition issues (r : request) : option jsstring :=
  match r with
  | Register _ _ _ _ t _ _ | Login _ _ t _ _ => Some t
  | Logout _ | Me _ _ => None
  end.

(** The two clock readings of its "Create session" block. *)
Definition clockReadings (r : request) : option (Z * Z) :=
  match r with
  | Register _ _ _ _ _ t0 t1 | Login _ _ _ t0 t1 => Some (t0, t1)
  | Logout _ | Me _ _ => None
  end.

(** What a handler can do to the sessions table: nothing, delete the
    rows of one token, or append the row of its "Create session" block. *)
Definition sessionsStep (r : request) (db db' : database) : Prop :=
  sessions db' = sessions db
  \/ (exists t, sessions db' = filter (keeps t) (sessions db))
  \/ (exists i u t t0 t1,
        issues r = Some t /\ clockReadings r = Some (t0, t1)
        /\ sessions db'
           = sessions db
               ++ [mkSession i u t (t1 / 1000)
                     (setDate t0 (getDate t0 + 30) / 1000)]).

End Runtime.

End Index.

Export Index.

(** ** The specification's wording, for comparison with the code *)

Module Spec.

(** The persisted encoding [hex(salt):hex(derivedKey):decimalIterationCount]. *)
Definition encodedCredential (salt derivedKey : list Byte.byte)
  (iterationCount : N) : jsstring :=
  buf2hex salt ++ str ":" ++ buf2hex derivedKey ++ str ":"
    ++ toString10 iterationCount.

(** A lowercase hexadecimal digit. *)
Definition isLowerHex (c : code_unit) : bool :=
  ((48 <=? c) && (c <=? 57)) || ((97 <=? c) && (c <=? 102)).

(** The comparison as the design notes word it: over the two keys as
    byte arrays, folding the XOR of the bytes at every index with OR,
    after a check of the lengths. *)
Definition constantTimeEqualBytes (a b : list Byte.byte) : bool :=
  if negb (Nat.eqb (length a) (length b)) then false
  else
    fold_left (fun acc p => N.lor acc (N.lxor (Byte.to_N (fst p)) (Byte.to_N (snd p))))
              (combine a b) 0 =? 0.

(** The error the specification calls [MalformedCredential] is the
    [Error] that [verifyPassword] throws on a wrong number of parts. *)
Definition MalformedCredential : exn := Error_ "Bad hash format".

(** Thirty days in seconds. *)
Definition thirtyDays : Z := 2592000.

End Spec.

Export Spec.

(** ** A small platform to run the model on

    A deterministic stand-in for the services of the runtime, used to
    evaluate the handlers on concrete requests: an encoder that keeps
    the low byte of every code unit, a key derivation that mixes the
    key, the salt and the iteration count into every output byte and
    refuses what WebCrypto refuses (no iterations, a length that is not
    a positive number of bytes, a non-integer count), a UTC clock and a
    calendar of 30-day months. *)

Module Sample.

Definition byteOf (n : N) : Byte.byte := toUint8 (Some (Z.of_N n)).

Definition sumBytes (l : list Byte.byte) : N :=
  fold_right (fun b acc => Byte.to_N b + acc) 0 l.

Definition encode (s : jsstring) : list Byte.byte := map byteOf s.

Definition deriveBits (key salt : list Byte.byte) (iterations : number)
  (len : N) : result (list Byte.byte) :=
  match iterations with
  | Int n =>
      if (n =? 0) || (len =? 0) || negb (len mod 8 =? 0) then
        Throw (PlatformError "OperationError")
      else
        Ok (map (fun i => byteOf (sumBytes key + 3 * sumBytes salt + n + N.of_nat i))
                (seq 0 (N.to_nat (len / 8))))
  | NonInt _ => Throw (PlatformError "TypeError")
  end.

Definition LocalTZA (t : Z) (isUTC : bool) : Z := 0%Z.
Definition monthStartDay (d : Z) : Z := (30 * (d / 30))%Z.

Definition emptyDB : database := mkDB [] [] 0 0 [].

Definition register := Index.register LocalTZA monthStartDay encode deriveBits.
Definition login := Index.login LocalTZA monthStartDay encode deriveBits.
Definition serve := Index.serve LocalTZA monthStartDay encode deriveBits.

(** A password, a random source, the salt it gives and the key they
    derive. *)
Definition hunter2 : jsstring := str "hunter2".
Definition random7 (i : nat) : Byte.byte := Byte.x07.
Definition salt7 : list Byte.byte := getRandomValues random7 SALT_LEN.
Definition key7 : list Byte.byte :=
  Eval vm_compute in
    match deriveBits (encode hunter2) salt7 (Int ITERATIONS) (KEY_LEN * 8) with
    | Ok bits => bits
    | Throw _ => []
    end.

(** A registration whose two clock readings straddle a second, and one
    whose readings coincide. *)
Definition registerAlice (t0 t1 : Z) : request :=
  Register (str "alice@example.org") hunter2 (str "alice") random7
           (str "tok-1") t0 t1.

(** A database holding one user and one session that expires at second
    100. *)
Definition oneSession : database :=
  mkDB [mkUser 1 (str "alice@example.org") (encodedCredential salt7 key7 ITERATIONS)
               (str "alice") None None]
       [mkSession 1 1 (str "tok-1") 40 100] 1 1 [].

End Sample.


(** ** The route layer: profile update and tweets

    [POST /api/users/update], [POST /api/tweets] and the grouping of
    photos in [GET /api/tweets] and [GET /api/users/:username]. The log
    of [database] keeps recording the statements of
    [getUserFromSession]; the statements of these handlers are not
    logged. *)

Module Routes.

Local Open Scope Z_scope.

(** The row after [SET username = ?, description = ?, profile_photo = ?]
    with only the clauses of the provided fields. *)
Definition setFields (n d ph : option jsstring) (u : user_row) : user_row :=
  mkUser (id u) (email u) (password u)
    (match n with Some x => x | None => username u end)
    (match d with Some x => Some x | None => description u end)
    (match ph with Some x => Some x | None => profile_photo u end).

(** [username] is UNIQUE: the update is refused when it would give the
    row of [i] a name another row has. [id] is the primary key, so at
    most one row is the row of [i]. *)
Definition usernameTaken (i : Z) (n : option jsstring) (db : database) : bool :=
  match n with
  | None => false
  | Some x =>
      existsb (fun u => Z.eqb (id u) i) (users db)
      && existsb (fun u => negb (Z.eqb (id u) i) && jsstring_eqb (username u) x)
                 (users db)
  end.

(** [UPDATE users SET ... WHERE id = ?] *)
Definition updateUsers (i : Z) (n d ph : option jsstring) (db : database)
  : result unit * database :=
  if usernameTaken i n db then (Throw (PlatformError "SQLITE_CONSTRAINT"), db)
  else
    (Ok tt,
     mkDB (map (fun u => if Z.eqb (id u) i then setFields n d ph u else u)
               (users db))
          (sessions db) (user_seq db) (session_seq db) (statements db)).

(** [POST /api/users/update] on a body the validator accepted; a field
    is [None] when the body leaves it undefined. *)
Definition update (cookie : option jsstring) (now : Z)
  (username description profilePhoto : option jsstring) (db : database)
  : result (response * cookie_action) * database :=
  match getUserFromSession cookie now db with
  | (None, db1) => (Ok (json_error "Unauthorized" 401, keepCookie), db1)
  | (Some user, db1) =>
      match username, description, profilePhoto with
      | None, None, None => (Ok (json_user user, keepCookie), db1)
      | _, _, _ =>
          match updateUsers (view_id user) username description profilePhoto db1 with
          | (Throw e, db2) => (Throw e, db2)
          | (Ok _, db2) => (Ok (json_success, keepCookie), db2)
          end
      end
  end.

(** Rows of the [tweets] and [photos] tables, and the two tables with
    their AUTOINCREMENT counters. *)
Record tweet_row : Type := mkTweet {
  tweet_id : Z;
  tweet_user_id : Z;
  tweet_text : option jsstring;
  tweet_created_at : Z
}.

Record photo_row : Type := mkPhoto {
  photo_id : Z;
  photo_tweet_id : Z;
  photo_url : jsstring
}.

Record feed : Type := mkFeed {
  tweets : list tweet_row;
  photos : list photo_row;
  tweet_seq : Z;
  photo_seq : Z
}.

(** [INSERT INTO tweets (user_id, text, created_at) ... RETURNING id] *)
Definition insertTweet (u : Z) (text : jsstring) (c : Z) (f : feed) : Z * feed :=
  let i := tweet_seq f + 1 in
  (i, mkFeed (tweets f ++ [mkTweet i u (Some text) c]) (photos f) i (photo_seq f)).

(** [INSERT INTO photos (tweet_id, url)] *)
Definition insertPhoto (f : feed) (tweetId : Z) (url : jsstring) : feed :=
  let i := photo_seq f + 1 in
  mkFeed (tweets f) (photos f ++ [mkPhoto i tweetId url]) (tweet_seq f) i.

Inductive tweet_response : Type :=
| tweet_error (error : string) (status : Z)
| tweet_created (id userId : Z) (text : jsstring) (images : list jsstring)
                (createdAt : Z).

(** [POST /api/tweets] on a body the validator accepted: [images] is
    [None] when the body has none, [authNow] and [now] are the clock
    readings of [getUserFromSession] and of [createdAt]. *)
Definition postTweet (cookie : option jsstring) (authNow : Z)
  (text : jsstring) (images : option (list jsstring)) (now : Z)
  (s : database * feed) : tweet_response * (database * feed) :=
  let '(db, f) := s in
  match getUserFromSession cookie authNow db with
  | (None, db1) => (tweet_error "Unauthorized" 401, (db1, f))
  | (Some user, db1) =>
      let createdAt := now / 1000 in
      let '(tweetId, f1) := insertTweet (view_id user) text createdAt f in
      let f2 :=
        match images with
        | Some ((_ :: _) as l) =>
            let limitedImages := firstn 4 l in
            fold_left (fun g url => insertPhoto g tweetId url) limitedImages f1
        | _ => f1
        end in
      (tweet_created tweetId (view_id user) text
         (match images with Some l => l | None => [] end) createdAt,
       (db1, f2))
  end.

(** The object [photoMap]: its own properties, keyed by the decimal
    string of a tweet id, in the order they were created. *)
Definition photoMap : Type := list (Z * list jsstring).

Fixpoint getProperty (m : photoMap) (k : Z) : option (list jsstring) :=
  match m with
  | [] => None
  | (k', v) :: m' => if Z.eqb k' k then Some v else getProperty m' k
  end.

Fixpoint setProperty (m : photoMap) (k : Z) (v : list jsstring) : photoMap :=
  match m with
  | [] => [(k, v)]
  | (k', v') :: m' =>
      if Z.eqb k' k then (k', v) :: m' else (k', v') :: setProperty m' k v
  end.

(** One round of [photos.forEach]: create the array when the property
    is missing, then push the url. *)
Definition pushPhoto (m : photoMap) (p : Z * jsstring) : photoMap :=
  let '(tweetId, url) := p in
  let id := tweetId in
  let m1 := match getProperty m id with
            | None => setProperty m id []
            | Some _ => m
            end in
  match getProperty m1 id with
  | Some l => setProperty m1 id (l ++ [url])
  | None => m1
  end.

(** [photoMap] after the loop over the rows [(tweetId, url)] of
    [SELECT tweet_id AS tweetId, url FROM photos]. *)
Definition groupPhotos (rows : list (Z * jsstring)) : photoMap :=
  fold_left pushPhoto rows [].

(** [photoMap[t.id] || []] *)
Definition imagesOf (m : photoMap) (tweetId : Z) : list jsstring :=
  match getProperty m tweetId with
  | Some l => l
  | None => []
  end.

(** A row of the join of [GET /api/tweets] and an element of its
    output. *)
Record tweet_result : Type := mkResult {
  res_id : Z;
  res_text : option jsstring;
  res_createdAt : Z;
  res_userId : Z;
  res_username : jsstring;
  res_profilePhoto : option jsstring
}.

Record tweet_json : Type := mkJson {
  json_id : Z;
  json_text : option jsstring;
  json_createdAt : Z;
  json_user_id : Z;
  json_user_username : jsstring;
  json_user_profilePhoto : option jsstring;
  json_images : list jsstring
}.

(** The body of [GET /api/tweets] from the rows of its two queries. *)
Definition tweetsOutput (tweets : list tweet_result)
  (photos : list (Z * jsstring)) : list tweet_json :=
  let photoMap := groupPhotos photos in
  map (fun t => mkJson (res_id t) (res_text t) (res_createdAt t)
                       (res_userId t) (res_username t) (res_profilePhoto t)
                       (imagesOf photoMap (res_id t)))
      tweets.

(** [SELECT tweet_id AS tweetId, url FROM photos], rows in table order. *)
Definition selectPhotos (f : feed) : list (Z * jsstring) :=
  map (fun p => (photo_tweet_id p, photo_url p)) (photos f).

(** What the tables must satisfy for the counters to be AUTOINCREMENT
    counters and the UNIQUE columns to be unique. *)
Definition wf_database (db : database) : Prop :=
  NoDup (map id (users db))
  /\ Forall (fun u => id u <= user_seq db) (users db)
  /\ NoDup (map email (users db))
  /\ NoDup (map username (users db))
  /\ NoDup (map token (sessions db)).

(** Every photo belongs to a tweet id already handed out, and no tweet
    id has more than four photos. *)
Definition wf_feed (f : feed) : Prop :=
  Forall (fun p => photo_tweet_id p <= tweet_seq f) (photos f)
  /\ forall k,
       (length (filter (fun p => Z.eqb (photo_tweet_id p) k) (photos f)) <= 4)%nat.

Section Runtime.

Variable LocalTZA : Z -> bool -> Z.
Variable monthStartDay : Z -> Z.
Variable encode : jsstring -> list Byte.byte.
Variable deriveBits :
  list Byte.byte -> list Byte.byte -> number -> N -> result (list Byte.byte).

(** A request to any of the modelled endpoints. *)
Inductive action : Type :=
| Auth (r : request)
| Update (cookie : option jsstring) (now : Z)
         (username description profilePhoto : option jsstring)
| PostTweet (cookie : option jsstring) (authNow : Z) (text : jsstring)
            (images : option (list jsstring)) (now : Z).

Definition step (a : action) (s : database * feed) : database * feed :=
  match a with
  | Auth r => (snd (handle LocalTZA monthStartDay encode deriveBits r (fst s)), snd s)
  | Update c now n d ph => (snd (update c now n d ph (fst s)), snd s)
  | PostTweet c authNow text images now => snd (postTweet c authNow text images now s)
  end.

Definition steps (l : list action) (s : database * feed) : database * feed :=
  fold_left (fun s a => step a s) l s.

End Runtime.

(** The same hexadecimal digits in upper case. *)
Definition upperHex (c : code_unit) : code_unit :=
  if (N.leb 97 c && N.leb c 102)%bool then (c - 32)%N else c.

End Routes.

Export Routes.

(** Data to run the remaining handlers on. *)

Module SampleRoutes.

Local Open Scope Z_scope.

Definition step := Routes.step Sample.LocalTZA Sample.monthStartDay
                     Sample.encode Sample.deriveBits.
Definition steps := Routes.steps Sample.LocalTZA Sample.monthStartDay
                      Sample.encode Sample.deriveBits.

Definition emptyFeed : feed := mkFeed [] [] 0 0.

(** Two users; the first holds a session that expires at second 100. *)
Definition twoUsers : database :=
  mkDB [mkUser 1 (str "alice@example.org")
               (encodedCredential Sample.salt7 Sample.key7 ITERATIONS)
               (str "alice") None None;
        mkUser 2 (str "bob@example.org")
               (encodedCredential Sample.salt7 Sample.key7 ITERATIONS)
               (str "bob") (Some (str "hi")) None]
       [mkSession 1 1 (str "tok-1") 40 100] 2 1 [].

Definition fiveImages : list jsstring :=
  [str "a.png"; str "b.png"; str "c.png"; str "d.png"; str "e.png"].

End SampleRoutes.

(** * Properties *)

(** ** Strings *)

Section StringFacts.

Lemma split_without (sep : code_unit) (s : jsstring) :
  ~ In sep s -> split sep s = [s].
Proof.
  induction s as [|c s IH]; intros H; simpl; [reflexivity|].
  destruct (N.eqb_spec c sep) as [->|_].
  - exfalso. apply H. now left.
  - rewrite IH; [reflexivity|]. intros Hin. apply H. now right.
Qed.

Lemma split_app (sep : code_unit) (a b : jsstring) :
  ~ In sep a -> split sep (a ++ sep :: b) = a :: split sep b.
Proof.
  induction a as [|c a IH]; intros H; simpl.
  - now rewrite N.eqb_refl.
  - destruct (N.eqb_spec c sep) as [->|_].
    + exfalso. apply H. now left.
    + rewrite IH; [reflexivity|]. intros Hin. apply H. now right.
Qed.

Lemma jsstring_eqb_eq (a b : jsstring) : jsstring_eqb a b = true <-> a = b.
Proof.
  revert b. induction a as [|x a IH]; destruct b as [|y b]; simpl;
    try (split; [discriminate|discriminate]); [tauto|].
  rewrite andb_true_iff, N.eqb_eq, IH. split.
  - now intros [-> ->].
  - intros E. now inversion E.
Qed.

Lemma jsstring_eqb_refl (a : jsstring) : jsstring_eqb a a = true.
Proof. now apply jsstring_eqb_eq. Qed.

Lemma uint_of_digits_of_uint (d : uint) :
  uint_of_digits (digits_of_uint d) = Some d.
Proof. induction d; simpl; try rewrite IHd; reflexivity. Qed.

Lemma digits_not_colon (d : uint) : ~ In 58 (digits_of_uint d).
Proof.
  induction d; simpl; try tauto;
    intros [E|Hin]; try discriminate E; now apply IHd.
Qed.

Lemma Number_toString10 (n : N) :
  n <= 2 ^ 53 -> Number_ (toString10 n) = Int n.
Proof.
  intros Hn. unfold Number_, toString10.
  rewrite uint_of_digits_of_uint. cbv zeta.
  rewrite DecimalN.Unsigned.of_to.
  apply N.leb_le in Hn. now rewrite Hn.
Qed.

End StringFacts.

(** ** Hexadecimal encoding *)

Section HexFacts.

(** Every byte prints as two lowercase hexadecimal digits that read back
    as the byte. *)
Lemma byte_hex (b : Byte.byte) :
  exists x y,
    padStart2 (toString16 (Byte.to_N b)) = [x; y]
    /\ isLowerHex x = true /\ isLowerHex y = true
    /\ toUint8 (parseInt16 [x; y]) = b.
Proof.
  destruct b;
    (eexists; eexists; split; [vm_compute; reflexivity|];
     split; [reflexivity|]; split; reflexivity).
Qed.

Lemma isLowerHex_not_colon (c : code_unit) : isLowerHex c = true -> c <> 58.
Proof. intros H ->. discriminate H. Qed.

Lemma buf2hex_cons (b : Byte.byte) (l : list Byte.byte) :
  buf2hex (b :: l) = padStart2 (toString16 (Byte.to_N b)) ++ buf2hex l.
Proof. reflexivity. Qed.

Lemma buf2hex_hex (l : list Byte.byte) :
  Forall (fun c => isLowerHex c = true) (buf2hex l).
Proof.
  induction l as [|b l IH]; [constructor|].
  rewrite buf2hex_cons.
  destruct (byte_hex b) as (x & y & -> & Hx & Hy & _).
  simpl. now repeat constructor.
Qed.

Lemma buf2hex_no_colon (l : list Byte.byte) : ~ In 58 (buf2hex l).
Proof.
  intros Hin. pose proof (buf2hex_hex l) as H.
  rewrite Forall_forall in H. now apply (isLowerHex_not_colon _ (H _ Hin)).
Qed.

Lemma buf2hex_length (l : list Byte.byte) :
  length (buf2hex l) = (2 * length l)%nat.
Proof.
  induction l as [|b l IH]; [reflexivity|].
  rewrite buf2hex_cons.
  destruct (byte_hex b) as (x & y & -> & _).
  simpl length. rewrite IH. lia.
Qed.

Lemma hex2buf_pair (x y : code_unit) (r : jsstring) :
  hex2buf (x :: y :: r)
  = (l <- hex2buf r ;; Ok (toUint8 (parseInt16 [x; y]) :: l)).
Proof.
  unfold hex2buf.
  replace (length (x :: y :: r)) with (length r + 1 * 2)%nat by (simpl; lia).
  rewrite Nat.Div0.mod_add, Nat.div_add by discriminate.
  destruct (Nat.eqb (length r mod 2) 0); simpl; [|reflexivity].
  rewrite Nat.add_1_r. simpl seq. simpl map. f_equal. f_equal.
  rewrite <- seq_shift, map_map. apply map_ext. intros i.
  unfold slice. replace (S i * 2)%nat with (S (S (i * 2))) by lia.
  replace (S (S (i * 2)) + 2 - S (S (i * 2)))%nat with (i * 2 + 2 - i * 2)%nat by lia.
  reflexivity.
Qed.

(** Decoding inverts encoding. *)
Lemma hex2buf_buf2hex (l : list Byte.byte) : hex2buf (buf2hex l) = Ok l.
Proof.
  induction l as [|b l IH]; [reflexivity|].
  rewrite buf2hex_cons.
  destruct (byte_hex b) as (x & y & -> & _ & _ & Hb).
  change ([x; y] ++ buf2hex l) with (x :: y :: buf2hex l).
  rewrite hex2buf_pair, IH. simpl. now rewrite Hb.
Qed.

Lemma buf2hex_inj (a b : list Byte.byte) : buf2hex a = buf2hex b -> a = b.
Proof.
  intros E. pose proof (hex2buf_buf2hex a) as Ha.
  rewrite E, hex2buf_buf2hex in Ha. now inversion Ha.
Qed.

End HexFacts.

(** ** The comparison loop *)

Section Comparison.

Variables a b : jsstring.

Lemma xorAccumulate_zero (r : N) (i : nat) :
  xorAccumulate a b r i = 0 <-> r = 0 /\ charCodeAt a i = charCodeAt b i.
Proof.
  unfold xorAccumulate. rewrite N.lor_eq_0_iff, N.lxor_eq_0_iff. tauto.
Qed.

Lemma fold_xor_zero (l : list nat) (r : N) :
  fold_left (xorAccumulate a b) l r = 0
  <-> r = 0 /\ Forall (fun i => charCodeAt a i = charCodeAt b i) l.
Proof.
  revert r. induction l as [|i l IH]; intros r; simpl.
  - split; [now intros ->|tauto].
  - rewrite IH, xorAccumulate_zero. split.
    + intros [[-> Hi] Hl]. split; [reflexivity|now constructor].
    + intros [-> H]. inversion H; subst. tauto.
Qed.

(** The comparison decides equality of the two strings, code unit by
    code unit. *)
Lemma constantTimeEqual_eq : constantTimeEqual a b = true <-> a = b.
Proof.
  unfold constantTimeEqual.
  destruct (Nat.eqb_spec (length a) (length b)) as [Hlen|Hlen]; simpl.
  - rewrite N.eqb_eq, fold_xor_zero, Forall_forall. split.
    + intros [_ H]. apply (nth_ext a b 0 0 Hlen). intros i Hi.
      apply H. apply in_seq. lia.
    + intros ->. split; [reflexivity|]. now intros.
  - split; [discriminate|]. intros ->. now contradiction Hlen.
Qed.

Lemma constantTimeEqual_length :
  length a <> length b -> constantTimeEqual a b = false.
Proof.
  intros H. unfold constantTimeEqual.
  now destruct (Nat.eqb_spec (length a) (length b)).
Qed.

(** From index [i] the loop makes one iteration for each remaining index
    and leaves with the accumulator folded over all of them. *)
Lemma loop_runs (fuel i : nat) (r : N) :
  (i <= length a)%nat -> (length a - i <= fuel)%nat ->
  loopIterations a b fuel (i, r) = (length a - i)%nat
  /\ loopRun a b fuel (i, r)
     = (length a, fold_left (xorAccumulate a b) (seq i (length a - i)) r).
Proof.
  revert i r. induction fuel as [|fuel IH]; intros i r Hi Hf.
  - replace (length a - i)%nat with 0%nat by lia.
    replace i with (length a) by lia. now split.
  - simpl. destruct (Nat.ltb_spec i (length a)) as [Hlt|Hge].
    + destruct (IH (S i) (xorAccumulate a b r i)) as [E1 E2]; try lia.
      rewrite E1, E2.
      replace (length a - i)%nat with (S (length a - S i)) by lia.
      now split.
    + replace (length a - i)%nat with 0%nat by lia.
      replace i with (length a) by lia. now split.
Qed.

End Comparison.

(** ** Password credentials *)

Section Credentials.

Variable encode : jsstring -> list Byte.byte.
Variable deriveBits :
  list Byte.byte -> list Byte.byte -> number -> N -> result (list Byte.byte).

Local Abbreviation hashPassword := (hashPassword encode deriveBits).
Local Abbreviation verifyPassword := (verifyPassword encode deriveBits).

Lemma split_credential (salt key : list Byte.byte) (n : N) :
  split 58 (encodedCredential salt key n)
  = [buf2hex salt; buf2hex key; toString10 n].
Proof.
  unfold encodedCredential.
  change (str ":") with [58].
  change (buf2hex salt ++ [58] ++ buf2hex key ++ [58] ++ toString10 n)
    with (buf2hex salt ++ 58 :: (buf2hex key ++ 58 :: toString10 n)).
  rewrite split_app by apply buf2hex_no_colon.
  rewrite split_app by apply buf2hex_no_colon.
  rewrite split_without by apply digits_not_colon.
  reflexivity.
Qed.

(** On a credential in the persisted encoding, verification is one key
    derivation with the stored salt, the stored count and the stored
    key's length, followed by the comparison of the hex strings. *)
Lemma verifyPassword_credential (password : jsstring)
  (salt key : list Byte.byte) (n : N) :
  n <= 2 ^ 53 ->
  verifyPassword password (encodedCredential salt key n)
  = (bits <- deriveBits (encode password) salt (Int n)
               (N.of_nat (length key) * 8) ;;
     Ok (constantTimeEqual (buf2hex bits) (buf2hex key))).
Proof.
  intros Hn. unfold PasswordHash.verifyPassword.
  rewrite split_credential, hex2buf_buf2hex. simpl bind.
  rewrite Number_toString10 by assumption.
  rewrite buf2hex_length.
  replace (N.of_nat (2 * length key) * 4) with (N.of_nat (length key) * 8) by lia.
  reflexivity.
Qed.

Lemma hashPassword_credential (password : jsstring)
  (random : nat -> Byte.byte) (bits : list Byte.byte) :
  deriveBits (encode password) (getRandomValues random SALT_LEN)
    (Int ITERATIONS) (KEY_LEN * 8) = Ok bits ->
  hashPassword password random
  = Ok (encodedCredential (getRandomValues random SALT_LEN) bits ITERATIONS).
Proof. intros H. unfold PasswordHash.hashPassword. cbv zeta. now rewrite H. Qed.

(** C1. Verifying a password against the credential that hashing it
    produced succeeds, whatever bytes the random source delivered for
    the salt: when the key derivation of [hashPassword] yields its
    [KEY_LEN] bytes, [hashPassword] returns a credential and
    [verifyPassword] returns [true] on it. *)
Theorem verify_accepts_hashed (password : jsstring)
  (random : nat -> Byte.byte) (bits : list Byte.byte) :
  deriveBits (encode password) (getRandomValues random SALT_LEN)
    (Int ITERATIONS) (KEY_LEN * 8) = Ok bits ->
  length bits = N.to_nat KEY_LEN ->
  exists stored,
    hashPassword password random = Ok stored
    /\ verifyPassword password stored = Ok true.
Proof.
  intros Hkdf Hlen.
  exists (encodedCredential (getRandomValues random SALT_LEN) bits ITERATIONS).
  split.
  - now apply hashPassword_credential.
  - rewrite verifyPassword_credential by (vm_compute; discriminate).
    rewrite Hlen, N2Nat.id, Hkdf. simpl.
    f_equal. now apply constantTimeEqual_eq.
Qed.

(** C2, as the code has it. [verifyPassword] compares the hex string of
    the newly derived key with the stored hex field; the comparison is
    an XOR-accumulate over the character codes of the two strings and
    decides their equality; strings of different lengths give [false],
    a value and not an error; on equal lengths the loop makes one
    iteration per index whatever the contents, and its accumulator
    decides the result. *)
Theorem comparison_over_character_codes
  (password stored saltHex hashHex iterStr : jsstring)
  (salt bits : list Byte.byte) (a b : jsstring) :
  (split 58 stored = [saltHex; hashHex; iterStr] ->
   hex2buf saltHex = Ok salt ->
   deriveBits (encode password) salt (Number_ iterStr)
     (N.of_nat (length hashHex) * 4) = Ok bits ->
   verifyPassword password stored
   = Ok (constantTimeEqual (buf2hex bits) hashHex))
  /\ (constantTimeEqual a b = true <-> a = b)
  /\ (length a <> length b -> constantTimeEqual a b = false)
  /\ (length a = length b ->
      forall fuel, (length a <= fuel)%nat ->
        loopIterations a b fuel (0%nat, 0) = length a
        /\ constantTimeEqual a b = (snd (loopRun a b fuel (0%nat, 0)) =? 0)).
Proof.
  split; [|split; [|split]].
  - intros Hs Hsalt Hkdf. unfold PasswordHash.verifyPassword.
    rewrite Hs, Hsalt. simpl bind. now rewrite Hkdf.
  - apply constantTimeEqual_eq.
  - apply constantTimeEqual_length.
  - intros Hlen fuel Hfuel.
    destruct (loop_runs a b fuel 0 0) as [E1 E2]; try lia.
    rewrite Nat.sub_0_r in E1, E2. split; [exact E1|].
    rewrite E2. unfold constantTimeEqual.
    apply Nat.eqb_eq in Hlen. now rewrite Hlen.
Qed.

(** C3. A stored string that does not split into exactly three parts
    at the colons makes [verifyPassword] throw the malformed-credential
    error; on a credential in the persisted encoding, a password whose
    derived key differs from the stored one gets [false], not an
    exception. *)
Theorem verify_malformed_or_false (password stored : jsstring) :
  (length (split 58 stored) <> 3%nat ->
   verifyPassword password stored = Throw MalformedCredential)
  /\ (forall (salt key bits : list Byte.byte) (n : N),
        stored = encodedCredential salt key n ->
        n <= 2 ^ 53 ->
        deriveBits (encode password) salt (Int n)
          (N.of_nat (length key) * 8) = Ok bits ->
        bits <> key ->
        verifyPassword password stored = Ok false).
Proof.
  split.
  - intros Hparts. unfold PasswordHash.verifyPassword.
    destruct (split 58 stored) as [|p1 [|p2 [|p3 [|p4 ps]]]];
      try reflexivity.
    now contradiction Hparts.
  - intros salt key bits n -> Hn Hkdf Hneq.
    rewrite verifyPassword_credential, Hkdf by assumption. simpl. f_equal.
    destruct (constantTimeEqual (buf2hex bits) (buf2hex key)) eqn:E;
      [|reflexivity].
    apply constantTimeEqual_eq, buf2hex_inj in E. now contradiction Hneq.
Qed.

(** C4. On a credential in the persisted encoding, [verifyPassword]
    derives the comparison key with the salt and the iteration count
    stored in the credential and asks for exactly as many bytes as the
    stored key has; [ITERATIONS] and [KEY_LEN] play no part. Its result
    is that of this one derivation: [true] exactly when the derived
    bytes are the stored key, and the derivation's exception if it
    throws. So a credential made with any count and any key length
    verifies under the password it was made from. *)
Theorem verify_uses_stored_parameters (password : jsstring)
  (salt key : list Byte.byte) (n : N) :
  n <= 2 ^ 53 ->
  match deriveBits (encode password) salt (Int n) (N.of_nat (length key) * 8) with
  | Ok bits =>
      exists r, verifyPassword password (encodedCredential salt key n) = Ok r
                /\ (r = true <-> bits = key)
  | Throw e => verifyPassword password (encodedCredential salt key n) = Throw e
  end
  /\ (deriveBits (encode password) salt (Int n) (N.of_nat (length key) * 8)
      = Ok key ->
      verifyPassword password (encodedCredential salt key n) = Ok true).
Proof.
  intros Hn. rewrite verifyPassword_credential by assumption.
  split.
  - destruct (deriveBits _ _ _ _) as [bits|e]; [|reflexivity].
    simpl. eexists. split; [reflexivity|].
    rewrite constantTimeEqual_eq. split; [apply buf2hex_inj|now intros ->].
  - intros ->. simpl. f_equal. now apply constantTimeEqual_eq.
Qed.

(** C7. When the key derivation yields its [KEY_LEN] bytes,
    [hashPassword] returns [hex(salt):hex(derivedKey):100000]: 32
    lowercase hex digits that decode to the 16 salt bytes drawn from the
    random source, a colon, 64 lowercase hex digits that decode to the
    32 key bytes, a colon, and the decimal literal [100000]; these are
    its three colon-separated parts. *)
Theorem hashPassword_format (password : jsstring)
  (random : nat -> Byte.byte) (bits : list Byte.byte) :
  let salt := getRandomValues random SALT_LEN in
  deriveBits (encode password) salt (Int ITERATIONS) (KEY_LEN * 8) = Ok bits ->
  length bits = N.to_nat KEY_LEN ->
  hashPassword password random
  = Ok (buf2hex salt ++ str ":" ++ buf2hex bits ++ str ":" ++ str "100000")
  /\ split 58 (buf2hex salt ++ str ":" ++ buf2hex bits ++ str ":" ++ str "100000")
     = [buf2hex salt; buf2hex bits; str "100000"]
  /\ length salt = 16%nat
  /\ length bits = 32%nat
  /\ length (buf2hex salt) = 32%nat
  /\ length (buf2hex bits) = 64%nat
  /\ Forall (fun c => isLowerHex c = true) (buf2hex salt)
  /\ Forall (fun c => isLowerHex c = true) (buf2hex bits)
  /\ hex2buf (buf2hex salt) = Ok salt
  /\ hex2buf (buf2hex bits) = Ok bits.
Proof.
  intros salt Hkdf Hbits.
  change (str "100000") with (toString10 ITERATIONS).
  fold (encodedCredential salt bits ITERATIONS).
  repeat split.
  - now apply hashPassword_credential.
  - apply split_credential.
  - exact Hbits.
  - now rewrite buf2hex_length.
  - now rewrite buf2hex_length, Hbits.
  - apply buf2hex_hex.
  - apply buf2hex_hex.
  - apply hex2buf_buf2hex.
  - apply hex2buf_buf2hex.
Qed.

(** C10. A stored string with exactly three colon-separated parts whose
    salt field has an odd number of characters makes [verifyPassword]
    throw the [Error] with message [Invalid hex string] of [hex2buf]:
    neither the malformed-credential error nor the answer [false]. *)
Theorem verify_odd_salt_throws
  (password stored saltHex hashHex iterStr : jsstring) :
  split 58 stored = [saltHex; hashHex; iterStr] ->
  Nat.odd (length saltHex) = true ->
  length (split 58 stored) = 3%nat
  /\ verifyPassword password stored = Throw (Error_ "Invalid hex string")
  /\ Error_ "Invalid hex string" <> MalformedCredential
  /\ verifyPassword password stored <> Ok false.
Proof.
  intros Hs Hodd.
  assert (E : verifyPassword password stored = Throw (Error_ "Invalid hex string")).
  { unfold PasswordHash.verifyPassword, hex2buf. rewrite Hs.
    rewrite <- Nat.bit0_mod, Nat.bit0_odd, Hodd. reflexivity. }
  repeat split.
  - now rewrite Hs.
  - exact E.
  - discriminate.
  - rewrite E. discriminate.
Qed.

End Credentials.

(** ** Sessions *)

Section Sessions.

Variable LocalTZA : Z -> bool -> Z.
Variable monthStartDay : Z -> Z.
Variable encode : jsstring -> list Byte.byte.
Variable deriveBits :
  list Byte.byte -> list Byte.byte -> number -> N -> result (list Byte.byte).

Local Abbreviation getDate := (getDate LocalTZA monthStartDay).
Local Abbreviation setDate := (setDate LocalTZA monthStartDay).
Local Abbreviation createSession := (createSession LocalTZA monthStartDay).
Local Abbreviation handle := (handle LocalTZA monthStartDay encode deriveBits).
Local Abbreviation serve := (serve LocalTZA monthStartDay encode deriveBits).
Local Abbreviation sessionsStep := (sessionsStep LocalTZA monthStartDay).

Local Open Scope Z_scope.

Lemma filter_idem {A} (f : A -> bool) (l : list A) :
  filter f (filter f l) = filter f l.
Proof.
  induction l as [|x l IH]; [reflexivity|]. simpl.
  destruct (f x) eqn:E; simpl; [rewrite E|]; now rewrite IH.
Qed.

Lemma filter_filter_nil {A} (f g : A -> bool) (l : list A) :
  filter f l = [] -> filter f (filter g l) = [].
Proof.
  induction l as [|x l IH]; [reflexivity|]. simpl.
  destruct (f x) eqn:E; [discriminate|]. intros H.
  destruct (g x); simpl; [rewrite E|]; now apply IH.
Qed.

Lemma selectSessions_deleted (t : jsstring) (db : database) :
  selectSessions t (deleteSessions t db) = [].
Proof.
  unfold selectSessions, deleteSessions. simpl.
  induction (sessions db) as [|s l IH]; [reflexivity|]. simpl.
  destruct (jsstring_eqb (token s) t) eqn:E; simpl; [|rewrite E]; exact IH.
Qed.

Lemma selectSessions_delete_other (t t' : jsstring) (db : database) :
  t' <> t ->
  selectSessions t' (deleteSessions t db) = selectSessions t' db.
Proof.
  intros Hne. unfold selectSessions, deleteSessions. simpl.
  induction (sessions db) as [|s l IH]; [reflexivity|]. simpl.
  destruct (jsstring_eqb (token s) t) eqn:E; simpl; [|now rewrite IH].
  apply jsstring_eqb_eq in E. rewrite E.
  destruct (jsstring_eqb t t') eqn:E'; [|exact IH].
  apply jsstring_eqb_eq in E'. now contradiction Hne.
Qed.

Lemma insertUser_sessions (e p n : jsstring) (db : database) :
  sessions (snd (insertUser e p n db)) = sessions db.
Proof.
  unfold insertUser.
  destruct (selectUsersByEmail e db), (selectUsersByUsername n db); reflexivity.
Qed.

Lemma createSession_sessions (u : Z) (t : jsstring) (t0 t1 : Z) (db : database) :
  sessions (snd (createSession u t t0 t1 db)) = sessions db
  \/ sessions (snd (createSession u t t0 t1 db))
     = sessions db
         ++ [mkSession (session_seq db + 1) u t (t1 / 1000)
               (setDate t0 (getDate t0 + 30) / 1000)].
Proof.
  unfold Index.createSession, insertSession.
  destruct (selectSessions t db); simpl; auto.
Qed.

Lemma getUserFromSession_sessions (c : option jsstring) (now : Z) (db : database) :
  sessions (snd (getUserFromSession c now db)) = sessions db
  \/ exists t, sessions (snd (getUserFromSession c now db))
               = filter (keeps t) (sessions db).
Proof.
  unfold getUserFromSession.
  destruct c as [[|x t]|]; auto.
  destruct (selectSessions (x :: t) db) as [|s l]; auto.
  destruct (_ >=? _); [right; now exists (x :: t)|].
  destruct (selectUsersById _ db); auto.
Qed.

Lemma handle_sessions (r : request) (db : database) :
  sessionsStep r db (snd (handle r db)).
Proof.
  unfold Index.sessionsStep.
  destruct r as [e p n random t t0 t1|e p t t0 t1|c|c now]; simpl.
  - unfold register.
    destruct (selectUsersByEmail e db); auto.
    destruct (selectUsersByUsername n db); auto.
    destruct (hashPassword _ _ _ _) as [hashed|err]; auto.
    pose proof (insertUser_sessions e hashed n
                  (run (SelectUserIdByUsername n) (run (SelectUserIdByEmail e) db)))
      as Hu.
    destruct (insertUser _ _ _ _) as [[user|err] db3]; simpl in Hu; auto.
    pose proof (createSession_sessions (id user) t t0 t1 db3) as Hc.
    destruct (Index.createSession _ _ _ _ _ _ _) as [[cookie|err] db4];
      simpl in Hc |- *; rewrite Hu in Hc;
      (destruct Hc as [Hc|Hc]; [auto|right; right; eauto 10]).
  - unfold login.
    destruct (selectUsersByEmail e db) as [|user l]; auto.
    destruct (verifyPassword _ _ _ _) as [[|]|err]; auto.
    pose proof (createSession_sessions (id user) t t0 t1
                  (run (SelectUserByEmail e) db)) as Hc.
    destruct (Index.createSession _ _ _ _ _ _ _) as [[cookie|err] db2];
      simpl in Hc |- *;
      (destruct Hc as [Hc|Hc]; [auto|right; right; eauto 10]).
  - destruct c as [[|x t]|]; simpl; auto.
    right; left. now exists (x :: t).
  - unfold me.
    pose proof (getUserFromSession_sessions c now db) as Hg.
    destruct (getUserFromSession c now db) as [[u|] db']; simpl in Hg |- *;
      (destruct Hg as [Hg|Hg]; auto).
Qed.

(** A token without a row stays without a row as long as no request
    issues it. *)
Lemma handle_absent (t : jsstring) (r : request) (db : database) :
  issues r <> Some t ->
  selectSessions t db = [] ->
  selectSessions t (snd (handle r db)) = [].
Proof.
  intros Hr Habs. unfold selectSessions in *.
  destruct (handle_sessions r db) as [E|[(t' & E)|(i & u & t' & t0 & t1 & Hi & _ & E)]];
    rewrite E.
  - exact Habs.
  - now apply filter_filter_nil.
  - rewrite filter_app, Habs. simpl.
    destruct (jsstring_eqb t' t) eqn:Eq; [|reflexivity].
    apply jsstring_eqb_eq in Eq. subst t'. now contradiction Hr.
Qed.

Lemma serve_absent (t : jsstring) (rs : list request) (db : database) :
  Forall (fun r => issues r <> Some t) rs ->
  selectSessions t db = [] ->
  selectSessions t (serve rs db) = [].
Proof.
  intros Hrs. revert db. induction Hrs as [|r rs Hr _ IH]; intros db Habs.
  - exact Habs.
  - simpl. apply IH. now apply handle_absent.
Qed.

(** Session tokens are the tokens the requests issued: when these are
    not empty, as UUIDs are, no row ever has the empty token. *)
Lemma serve_tokens_nonempty (rs : list request) (db : database) :
  Forall (fun r => issues r <> Some []) rs ->
  Forall (fun s => token s <> []) (sessions db) ->
  Forall (fun s => token s <> []) (sessions (serve rs db)).
Proof.
  intros Hrs. revert db. induction Hrs as [|r rs Hr _ IH]; intros db Hdb.
  - exact Hdb.
  - simpl. apply IH.
    destruct (handle_sessions r db)
      as [E|[(t & E)|(i & u & t & t0 & t1 & Hi & _ & E)]]; rewrite E.
    + exact Hdb.
    + rewrite Forall_forall in *. intros s Hs.
      apply filter_In in Hs. now apply Hdb.
    + apply Forall_app. split; [exact Hdb|].
      constructor; [|constructor]. simpl. intros ->. now apply Hr.
Qed.

Lemma getUserFromSession_absent (t : jsstring) (now : Z) (db : database) :
  selectSessions t db = [] ->
  fst (getUserFromSession (Some t) now db) = None.
Proof.
  intros Habs. unfold getUserFromSession.
  destruct t; [reflexivity|]. now rewrite Habs.
Qed.

Lemma setDate_thirty_days (t0 : Z) :
  setDate t0 (getDate t0 + 30)
  = UTC LocalTZA (LocalTime LocalTZA t0 + 30 * msPerDay).
Proof.
  unfold Index.setDate, Index.getDate, DateFromTime, MakeDayInMonthOf, MakeDate,
    TimeWithinDay, Day.
  f_equal.
  pose proof (Z.div_mod (LocalTime LocalTZA t0) msPerDay) as H.
  assert (msPerDay <> 0) by discriminate.
  specialize (H H0). lia.
Qed.

(** C5. Validating the token of an existing session at a time at or
    after its expiry returns [null] and deletes the session's rows,
    leaving the rows of other tokens alone; from then on, whatever
    requests are served that do not issue the token anew, validating it
    returns [null]. And whenever a validation resolves to a user, the
    presented token has a session whose expiry lies after the current
    second. Tokens are UUIDs, so the token is not the empty string. *)
Theorem expired_session_is_purged (t : jsstring) (now : Z) (db : database)
  (session : session_row) (rest : list session_row) :
  t <> [] ->
  selectSessions t db = session :: rest ->
  expires_at session <= now / 1000 ->
  fst (getUserFromSession (Some t) now db) = None
  /\ selectSessions t (snd (getUserFromSession (Some t) now db)) = []
  /\ (forall t', t' <> t ->
        selectSessions t' (snd (getUserFromSession (Some t) now db))
        = selectSessions t' db)
  /\ (forall rs now',
        Forall (fun r => issues r <> Some t) rs ->
        fst (getUserFromSession (Some t) now'
               (serve rs (snd (getUserFromSession (Some t) now db)))) = None)
  /\ (forall c now0 db0 u,
        fst (getUserFromSession c now0 db0) = Some u ->
        exists t0 s0 rest0,
          c = Some t0 /\ selectSessions t0 db0 = s0 :: rest0
          /\ now0 / 1000 < expires_at s0).
Proof.
  intros Ht Hsel Hexp.
  assert (E : getUserFromSession (Some t) now db
              = (None, deleteSessions t (run (SelectSessionByToken t) db))).
  { unfold getUserFromSession. destruct t as [|x t]; [now contradiction Ht|].
    rewrite Hsel. apply Z.geb_le in Hexp. now rewrite Hexp. }
  rewrite E. simpl fst. simpl snd.
  split; [reflexivity|]. split; [apply selectSessions_deleted|].
  split; [intros t' Hne; now rewrite selectSessions_delete_other|].
  split.
  - intros rs now' Hrs. apply getUserFromSession_absent.
    apply serve_absent; [exact Hrs|apply selectSessions_deleted].
  - intros c now0 db0 u. unfold getUserFromSession.
    destruct c as [[|x t0]|]; try discriminate.
    destruct (selectSessions (x :: t0) db0) as [|s0 rest0] eqn:Hs0;
      [discriminate|].
    destruct (Z.geb_spec (now0 / 1000) (expires_at s0)); [discriminate|].
    intros _. exists (x :: t0), s0, rest0.
    split; [reflexivity|]. split; [exact Hs0|]. assumption.
Qed.

(** C6, as the code has it. Every row of the sessions table after any
    sequence of requests is a row the table had before, unchanged, or
    the row a register or login request of the sequence inserted: its
    [created_at] is the second of the reading of [Date.now()], its
    [expires_at] the second of the date that [setDate] moved thirty
    calendar days ahead of the reading of [new Date()]. When the zone
    offset is the same thirty days later and both readings fall in the
    same second, [expires_at] is [created_at] plus 2,592,000. *)
Theorem session_rows_fixed_at_issuance (rs : list request) (db : database)
  (row : session_row) :
  In row (sessions (serve rs db)) ->
  In row (sessions db)
  \/ exists r t0 t1,
       In r rs /\ issues r = Some (token row)
       /\ clockReadings r = Some (t0, t1)
       /\ created_at row = t1 / 1000
       /\ expires_at row = setDate t0 (getDate t0 + 30) / 1000
       /\ (UTC LocalTZA (LocalTime LocalTZA t0 + 30 * msPerDay)
             = t0 + 30 * msPerDay ->
           t0 / 1000 = t1 / 1000 ->
           expires_at row = created_at row + thirtyDays).
Proof.
  revert db. induction rs as [|r rs IH]; intros db Hin; [now left|].
  simpl in Hin. apply IH in Hin.
  destruct Hin as [Hin|(r' & t0 & t1 & Hr' & H)];
    [|right; exists r', t0, t1; split; [now right|exact H]].
  destruct (handle_sessions r db) as [E|[(t & E)|(i & u & t & t0 & t1 & Hi & Hc & E)]];
    rewrite E in Hin.
  - now left.
  - left. apply filter_In in Hin. tauto.
  - apply in_app_or in Hin. destruct Hin as [Hin|[<-|[]]]; [now left|].
    right. exists r, t0, t1.
    split; [now left|]. split; [exact Hi|]. split; [exact Hc|].
    split; [reflexivity|]. split; [reflexivity|].
    intros Hzone Hsec. cbn [expires_at created_at].
    rewrite setDate_thirty_days, Hzone, <- Hsec.
    unfold thirtyDays, msPerDay.
    replace (t0 + 30 * 86400000) with (t0 + 2592000 * 1000) by lia.
    now rewrite Z.div_add.
Qed.

(** C8. Validating an absent or empty token returns [null] and leaves
    the database as it was, no statement run; validating a token that
    has no session returns [null] after the one lookup, with the users
    and sessions tables and their counters as they were. *)
Theorem unknown_token_leaves_store (now : Z) (db : database) :
  getUserFromSession None now db = (None, db)
  /\ getUserFromSession (Some []) now db = (None, db)
  /\ (forall t, selectSessions t db = [] ->
        fst (getUserFromSession (Some t) now db) = None
        /\ sessions (snd (getUserFromSession (Some t) now db)) = sessions db
        /\ users (snd (getUserFromSession (Some t) now db)) = users db
        /\ user_seq (snd (getUserFromSession (Some t) now db)) = user_seq db
        /\ session_seq (snd (getUserFromSession (Some t) now db)) = session_seq db
        /\ (t <> [] ->
            statements (snd (getUserFromSession (Some t) now db))
            = statements db ++ [SelectSessionByToken t])).
Proof.
  split; [reflexivity|]. split; [reflexivity|].
  intros t Habs. unfold getUserFromSession.
  destruct t as [|x t]; [now repeat split|].
  rewrite Habs. now repeat split.
Qed.

(** C9. Logout answers [success] whatever the cookie and the database,
    also when the token has no session; a second logout answers
    [success] too and finds nothing left to delete; and after a logout,
    whatever requests are served that do not issue the token anew,
    validating it returns [null]. *)
Theorem logout_idempotent (cookie : option jsstring) (db : database) :
  (exists action, fst (logout cookie db) = Ok (json_success, action))
  /\ (exists action,
        fst (logout cookie (snd (logout cookie db))) = Ok (json_success, action))
  /\ sessions (snd (logout cookie (snd (logout cookie db))))
     = sessions (snd (logout cookie db))
  /\ users (snd (logout cookie (snd (logout cookie db)))) = users db
  /\ (forall rs now,
        Forall (fun r => forall t, cookie = Some t -> issues r <> Some t) rs ->
        fst (getUserFromSession cookie now (serve rs (snd (logout cookie db))))
        = None).
Proof.
  destruct cookie as [[|x t]|]; simpl.
  - repeat split; eauto.
  - repeat split; eauto.
    + unfold deleteSessions. simpl. apply filter_idem.
    + intros rs now Hrs.
      apply (getUserFromSession_absent (x :: t)).
      apply serve_absent; [|apply selectSessions_deleted].
      eapply Forall_impl; [|exact Hrs]. intros r Hr. now apply Hr.
  - repeat split; eauto.
Qed.

End Sessions.

(** * The properties on concrete inputs *)

Section Instances.

Local Open Scope Z_scope.

Lemma verify_accepts_hashed_sample :
  exists stored,
    hashPassword Sample.encode Sample.deriveBits Sample.hunter2 Sample.random7
    = Ok stored
    /\ verifyPassword Sample.encode Sample.deriveBits Sample.hunter2 stored
       = Ok true.
Proof.
  apply (verify_accepts_hashed Sample.encode Sample.deriveBits
           Sample.hunter2 Sample.random7 Sample.key7).
  - vm_compute. reflexivity.
  - reflexivity.
Defined.

(** The stored key [AB] and the derived key are the same byte array,
    [0xab]; the comparison over byte arrays accepts them, and
    [verifyPassword] answers [false], because it compares the
    characters [ab] with [AB]. *)
Lemma comparison_is_not_over_bytes :
  Sample.deriveBits (Sample.encode []) [Byte.x00] (Number_ (str "171")) 8
  = Ok [Byte.xab]
  /\ hex2buf (str "AB") = Ok [Byte.xab]
  /\ constantTimeEqualBytes [Byte.xab] [Byte.xab] = true
  /\ verifyPassword Sample.encode Sample.deriveBits [] (str "00:AB:171")
     = Ok false
  /\ verifyPassword Sample.encode Sample.deriveBits [] (str "00:AB:171")
     <> Ok (constantTimeEqualBytes [Byte.xab] [Byte.xab]).
Proof.
  repeat split; try (vm_compute; reflexivity).
  vm_compute. discriminate.
Qed.

Lemma comparison_over_character_codes_sample :
  verifyPassword Sample.encode Sample.deriveBits [] (str "00:ab:171")
  = Ok (constantTimeEqual (buf2hex [Byte.xab]) (str "ab"))
  /\ constantTimeEqual (str "ab") (str "abc") = false
  /\ loopIterations (str "ab") (str "AB") 2 (0%nat, 0%N) = 2%nat.
Proof.
  split; [|split].
  - apply (proj1 (comparison_over_character_codes
                    Sample.encode Sample.deriveBits [] (str "00:ab:171")
                    (str "00") (str "ab") (str "171")
                    [Byte.x00] [Byte.xab] [] []));
      vm_compute; reflexivity.
  - apply (proj1 (proj2 (proj2 (comparison_over_character_codes
                    Sample.encode Sample.deriveBits [] [] [] [] []
                    [] [] (str "ab") (str "abc"))))).
    vm_compute. discriminate.
  - exact (proj1 (proj2 (proj2 (proj2 (comparison_over_character_codes
                    Sample.encode Sample.deriveBits [] [] [] [] []
                    [] [] (str "ab") (str "AB")))) eq_refl 2%nat (le_n 2))).
Defined.

Lemma verify_malformed_or_false_sample :
  verifyPassword Sample.encode Sample.deriveBits Sample.hunter2 (str "00ab:171")
  = Throw MalformedCredential
  /\ verifyPassword Sample.encode Sample.deriveBits (str "hunter3")
       (encodedCredential Sample.salt7 Sample.key7 ITERATIONS)
     = Ok false.
Proof.
  split.
  - apply (proj1 (verify_malformed_or_false Sample.encode Sample.deriveBits
                    Sample.hunter2 (str "00ab:171"))).
    vm_compute. discriminate.
  - eapply (proj2 (verify_malformed_or_false Sample.encode Sample.deriveBits
                     (str "hunter3")
                     (encodedCredential Sample.salt7 Sample.key7 ITERATIONS))
              Sample.salt7 Sample.key7).
    + reflexivity.
    + vm_compute. discriminate.
    + vm_compute. reflexivity.
    + vm_compute. discriminate.
Defined.

(** A credential made with 7 iterations and a key of 4 bytes. *)
Lemma verify_uses_stored_parameters_sample :
  verifyPassword Sample.encode Sample.deriveBits (str "pw")
    (encodedCredential [Byte.x01; Byte.x02]
       [Byte.xf7; Byte.xf8; Byte.xf9; Byte.xfa] 7)
  = Ok true.
Proof.
  apply (proj2 (verify_uses_stored_parameters Sample.encode Sample.deriveBits
                  (str "pw") [Byte.x01; Byte.x02]
                  [Byte.xf7; Byte.xf8; Byte.xf9; Byte.xfa] 7
                  ltac:(vm_compute; discriminate))).
  vm_compute. reflexivity.
Defined.

Lemma hashPassword_format_sample :
  hashPassword Sample.encode Sample.deriveBits Sample.hunter2 Sample.random7
  = Ok (buf2hex Sample.salt7 ++ str ":" ++ buf2hex Sample.key7 ++ str ":"
          ++ str "100000")
  /\ length (buf2hex Sample.salt7) = 32%nat
  /\ length (buf2hex Sample.key7) = 64%nat.
Proof.
  destruct (hashPassword_format Sample.encode Sample.deriveBits
              Sample.hunter2 Sample.random7 Sample.key7)
    as (H1 & _ & _ & _ & H3 & H4 & _).
  - vm_compute. reflexivity.
  - reflexivity.
  - exact (conj H1 (conj H3 H4)).
Defined.

Lemma verify_odd_salt_throws_sample :
  length (split 58%N (str "abc:00ab:171")) = 3%nat
  /\ verifyPassword Sample.encode Sample.deriveBits Sample.hunter2
       (str "abc:00ab:171")
     = Throw (Error_ "Invalid hex string")
  /\ Error_ "Invalid hex string" <> MalformedCredential
  /\ verifyPassword Sample.encode Sample.deriveBits Sample.hunter2
       (str "abc:00ab:171")
     <> Ok false.
Proof.
  apply (verify_odd_salt_throws Sample.encode Sample.deriveBits Sample.hunter2
           (str "abc:00ab:171") (str "abc") (str "00ab") (str "171"));
    reflexivity.
Defined.

Lemma expired_session_is_purged_sample :
  fst (getUserFromSession (Some (str "tok-1")) 100000 Sample.oneSession) = None
  /\ selectSessions (str "tok-1")
       (snd (getUserFromSession (Some (str "tok-1")) 100000 Sample.oneSession))
     = [].
Proof.
  destruct (expired_session_is_purged Sample.LocalTZA Sample.monthStartDay
              Sample.encode Sample.deriveBits (str "tok-1") 100000
              Sample.oneSession (mkSession 1 1 (str "tok-1") 40 100) [])
    as (H1 & H2 & _).
  - discriminate.
  - reflexivity.
  - vm_compute. discriminate.
  - exact (conj H1 H2).
Defined.

(** Registered with the clock at 999 ms and then at 1000 ms: the row is
    created in second 1 and expires in second 2,592,000, one second
    short of thirty days. *)
Lemma expiry_one_second_short :
  sessions (Sample.serve [Sample.registerAlice 999 1000] Sample.emptyDB)
  = [mkSession 1 1 (str "tok-1") 1 2592000]
  /\ expires_at (mkSession 1 1 (str "tok-1") 1 2592000)
     <> created_at (mkSession 1 1 (str "tok-1") 1 2592000) + thirtyDays.
Proof.
  split.
  - vm_compute. reflexivity.
  - vm_compute. discriminate.
Qed.

Lemma session_rows_fixed_at_issuance_sample :
  expires_at (mkSession 1 1 (str "tok-1") 5 2592005)
  = created_at (mkSession 1 1 (str "tok-1") 5 2592005) + thirtyDays.
Proof.
  destruct (session_rows_fixed_at_issuance Sample.LocalTZA Sample.monthStartDay
              Sample.encode Sample.deriveBits
              [Sample.registerAlice 5000 5000] Sample.emptyDB
              (mkSession 1 1 (str "tok-1") 5 2592005))
    as [[]|(r & t0 & t1 & [<-|[]] & _ & Hc & _ & _ & H)].
  - vm_compute. left. reflexivity.
  - injection Hc as <- <-. apply H; reflexivity.
Defined.

Lemma unknown_token_leaves_store_sample :
  fst (getUserFromSession (Some (str "nonexistent-token")) 5000 Sample.oneSession)
  = None
  /\ sessions (snd (getUserFromSession (Some (str "nonexistent-token")) 5000
                      Sample.oneSession))
     = sessions Sample.oneSession.
Proof.
  destruct (proj2 (proj2 (unknown_token_leaves_store 5000 Sample.oneSession))
              (str "nonexistent-token") eq_refl) as (H1 & H2 & _).
  exact (conj H1 H2).
Defined.

Lemma logout_idempotent_sample :
  fst (getUserFromSession (Some (str "tok-1")) 7000
         (Sample.serve [Me (Some (str "tok-1")) 5000; Logout (Some (str "tok-1"))]
            (snd (logout (Some (str "tok-1")) Sample.oneSession))))
  = None.
Proof.
  apply (proj2 (proj2 (proj2 (proj2
           (logout_idempotent Sample.LocalTZA Sample.monthStartDay
              Sample.encode Sample.deriveBits
              (Some (str "tok-1")) Sample.oneSession))))).
  repeat constructor; intros t _; discriminate.
Defined.

End Instances.

(** * Further properties of the password utility *)

Section SplitFacts.

Variable sep : code_unit.

Lemma split_nonempty (s : jsstring) : split sep s <> [].
Proof.
  destruct s as [|c s]; simpl; [discriminate|].
  destruct (c =? sep); [discriminate|].
  destruct (split sep s); discriminate.
Qed.

Lemma split_length (s : jsstring) :
  length (split sep s) = S (count_occ N.eq_dec s sep).
Proof.
  induction s as [|c s IH]; [reflexivity|]. simpl.
  destruct (N.eqb_spec c sep) as [->|Hne].
  - simpl. rewrite IH. now destruct (N.eq_dec sep sep).
  - destruct (N.eq_dec c sep); [contradiction|].
    destruct (split sep s) as [|q qs] eqn:E; [now apply split_nonempty in E|].
    exact IH.
Qed.

(** The first part ends at the first separator and the other parts are
    the parts of what follows it. *)
Lemma split_cons_inv (s p : jsstring) (ps : list jsstring) :
  split sep s = p :: ps ->
  ~ In sep p
  /\ match ps with
     | [] => s = p
     | _ :: _ => exists r, s = p ++ sep :: r /\ split sep r = ps
     end.
Proof.
  revert p ps. induction s as [|c s IH]; intros p ps; simpl.
  - intros E. inversion E. now split.
  - destruct (N.eqb_spec c sep) as [->|Hne].
    + intros E. inversion E; subst. split; [tauto|].
      destruct (split sep s) as [|q qs] eqn:Es;
        [now apply split_nonempty in Es|].
      exists s. now split.
    + destruct (split sep s) as [|q qs] eqn:Es;
        [now apply split_nonempty in Es|].
      intros E. inversion E; subst.
      destruct (IH q ps eq_refl) as [Hq Hps]. split.
      * intros [->|Hin]; [now contradiction Hne|now apply Hq].
      * destruct ps as [|q' qs'].
        -- now rewrite Hps.
        -- destruct Hps as (r & -> & Hr). exists r. now split.
Qed.

Lemma split_three (s a b c : jsstring) :
  split sep s = [a; b; c] ->
  s = a ++ sep :: b ++ sep :: c
  /\ ~ In sep a /\ ~ In sep b /\ ~ In sep c.
Proof.
  intros E.
  destruct (split_cons_inv _ _ _ E) as [Ha (r & -> & Er)].
  destruct (split_cons_inv _ _ _ Er) as [Hb (r' & -> & Er')].
  destruct (split_cons_inv _ _ _ Er') as [Hc ->].
  now repeat split.
Qed.

End SplitFacts.

Section HexCase.

Lemma byte_hex_upper (b : Byte.byte) :
  exists x y,
    map upperHex (padStart2 (toString16 (Byte.to_N b))) = [x; y]
    /\ x <> 58 /\ y <> 58
    /\ toUint8 (parseInt16 [x; y]) = b.
Proof.
  destruct b;
    (eexists; eexists; split; [vm_compute; reflexivity|];
     split; [discriminate|]; split; [discriminate|reflexivity]).
Qed.

Lemma upper_buf2hex_cons (b : Byte.byte) (l : list Byte.byte) :
  map upperHex (buf2hex (b :: l))
  = map upperHex (padStart2 (toString16 (Byte.to_N b)))
      ++ map upperHex (buf2hex l).
Proof. rewrite buf2hex_cons. apply map_app. Qed.

Lemma hex2buf_upper (l : list Byte.byte) :
  hex2buf (map upperHex (buf2hex l)) = Ok l.
Proof.
  induction l as [|b l IH]; [reflexivity|].
  rewrite upper_buf2hex_cons.
  destruct (byte_hex_upper b) as (x & y & -> & _ & _ & Hb).
  change ([x; y] ++ map upperHex (buf2hex l))
    with (x :: y :: map upperHex (buf2hex l)).
  rewrite hex2buf_pair, IH. simpl. now rewrite Hb.
Qed.

Lemma upper_no_colon (l : list Byte.byte) : ~ In 58 (map upperHex (buf2hex l)).
Proof.
  induction l as [|b l IH]; [intros []|].
  rewrite upper_buf2hex_cons.
  destruct (byte_hex_upper b) as (x & y & -> & Hx & Hy & _).
  simpl. intros [E|[E|Hin]]; [now apply Hx|now apply Hy|now apply IH].
Qed.

Lemma hex2buf_app (a b : jsstring) (la lb : list Byte.byte) :
  hex2buf a = Ok la -> hex2buf b = Ok lb -> hex2buf (a ++ b) = Ok (la ++ lb).
Proof.
  revert la. induction a as [a IH] using (well_founded_induction
    (well_founded_ltof _ (@length code_unit))).
  intros la Ha Hb. destruct a as [|x [|y r]].
  - inversion Ha. exact Hb.
  - discriminate Ha.
  - rewrite hex2buf_pair in Ha.
    destruct (hex2buf r) as [lr|e] eqn:Er; [|discriminate Ha].
    simpl in Ha. inversion Ha; subst.
    change ((x :: y :: r) ++ b) with (x :: y :: (r ++ b)).
    rewrite hex2buf_pair.
    rewrite (IH r ltac:(unfold ltof; simpl; lia) lr Er Hb).
    reflexivity.
Qed.

End HexCase.

Section MoreCredentials.

Variable encode : jsstring -> list Byte.byte.
Variable deriveBits :
  list Byte.byte -> list Byte.byte -> number -> N -> result (list Byte.byte).

Local Abbreviation hashPassword := (hashPassword encode deriveBits).
Local Abbreviation verifyPassword := (verifyPassword encode deriveBits).

Lemma split_fields (a b c : jsstring) :
  ~ In 58 a -> ~ In 58 b -> ~ In 58 c ->
  split 58 (a ++ str ":" ++ b ++ str ":" ++ c) = [a; b; c].
Proof.
  intros Ha Hb Hc. change (str ":") with [58].
  change (a ++ [58] ++ b ++ [58] ++ c) with (a ++ 58 :: (b ++ 58 :: c)).
  now rewrite !split_app, split_without.
Qed.

Lemma verifyPassword_fields (password a b c : jsstring) :
  ~ In 58 a -> ~ In 58 b -> ~ In 58 c ->
  verifyPassword password (a ++ str ":" ++ b ++ str ":" ++ c)
  = (salt <- hex2buf a ;;
     bits <- deriveBits (encode password) salt (Number_ c)
               (N.of_nat (length b) * 4) ;;
     Ok (constantTimeEqual (buf2hex bits) b)).
Proof.
  intros Ha Hb Hc. unfold PasswordHash.verifyPassword.
  now rewrite split_fields.
Qed.

(** X1. [hex2buf] inverts [buf2hex]: every byte array is encoded as
    twice as many lowercase hexadecimal digits, which decode to the
    array again. *)
Theorem hex_encoding_round_trip (buf : list Byte.byte) :
  hex2buf (buf2hex buf) = Ok buf
  /\ length (buf2hex buf) = (2 * length buf)%nat
  /\ Forall (fun c => isLowerHex c = true) (buf2hex buf).
Proof.
  split; [apply hex2buf_buf2hex|]. split; [apply buf2hex_length|apply buf2hex_hex].
Qed.

(** X2. [hex2buf] throws exactly on strings of odd length. A string of
    even length decodes to half as many bytes whatever its characters
    are (no character is rejected), and decoding distributes over the
    concatenation of decodable strings. *)
Theorem hex2buf_rejects_only_odd_lengths (hex a b : jsstring) :
  (hex2buf hex = Throw (Error_ "Invalid hex string")
   <-> Nat.odd (length hex) = true)
  /\ (Nat.odd (length hex) = false ->
      exists buf, hex2buf hex = Ok buf /\ length buf = (length hex / 2)%nat)
  /\ (forall la lb, hex2buf a = Ok la -> hex2buf b = Ok lb ->
        hex2buf (a ++ b) = Ok (la ++ lb)).
Proof.
  assert (E : Nat.eqb (length hex mod 2) 0 = negb (Nat.odd (length hex))).
  { rewrite <- Nat.bit0_mod, Nat.bit0_odd.
    now destruct (Nat.odd (length hex)). }
  split; [|split].
  - unfold hex2buf. rewrite E.
    destruct (Nat.odd (length hex)); simpl; split; (reflexivity || discriminate).
  - intros Hodd. unfold hex2buf. rewrite E, Hodd. simpl.
    eexists. split; [reflexivity|]. now rewrite length_map, length_seq.
  - intros la lb. apply hex2buf_app.
Qed.

(** X3. The salt field is read without regard to the case of its
    hexadecimal digits, the key field is not: with the salt in upper
    case verification gives what it gives on the lowercase credential;
    with the key in upper case it answers [false] as soon as the key has
    a letter digit, although the field decodes to the very bytes the
    password derives. *)
Theorem verify_hex_case (password : jsstring) (salt key : list Byte.byte)
  (n : N) :
  n <= 2 ^ 53 ->
  verifyPassword password
    (map upperHex (buf2hex salt) ++ str ":" ++ buf2hex key ++ str ":"
       ++ toString10 n)
  = verifyPassword password (encodedCredential salt key n)
  /\ hex2buf (map upperHex (buf2hex key)) = Ok key
  /\ (map upperHex (buf2hex key) <> buf2hex key ->
      deriveBits (encode password) salt (Int n) (N.of_nat (length key) * 8)
      = Ok key ->
      verifyPassword password
        (buf2hex salt ++ str ":" ++ map upperHex (buf2hex key) ++ str ":"
           ++ toString10 n)
      = Ok false).
Proof.
  intros Hn. split; [|split].
  - unfold encodedCredential.
    rewrite !verifyPassword_fields;
      try apply buf2hex_no_colon; try apply upper_no_colon;
      try apply digits_not_colon.
    now rewrite hex2buf_upper, hex2buf_buf2hex.
  - apply hex2buf_upper.
  - intros Hcase Hkdf.
    rewrite verifyPassword_fields;
      try apply buf2hex_no_colon; try apply upper_no_colon;
      try apply digits_not_colon.
    rewrite hex2buf_buf2hex. simpl bind.
    rewrite Number_toString10 by assumption.
    rewrite length_map, buf2hex_length.
    replace (N.of_nat (2 * length key) * 4) with (N.of_nat (length key) * 8) by lia.
    rewrite Hkdf. simpl. f_equal.
    destruct (constantTimeEqual _ _) eqn:E; [|reflexivity].
    apply constantTimeEqual_eq in E. now contradiction Hcase.
Qed.

(** X4. [verifyPassword] answers [true] only when the stored string has
    three parts, the salt field decodes, and the key field is the
    lowercase hex of the bytes the key derivation returns for the
    password, that salt, the stored count and exactly the length of
    those bytes. *)
Theorem verify_true_only_on_derived_key (password stored : jsstring) :
  verifyPassword password stored = Ok true ->
  exists saltHex iterStr salt bits,
    stored = saltHex ++ str ":" ++ buf2hex bits ++ str ":" ++ iterStr
    /\ split 58 stored = [saltHex; buf2hex bits; iterStr]
    /\ hex2buf saltHex = Ok salt
    /\ deriveBits (encode password) salt (Number_ iterStr)
         (N.of_nat (length bits) * 8) = Ok bits.
Proof.
  unfold PasswordHash.verifyPassword.
  destruct (split 58 stored) as [|a [|b [|c [|d ps]]]] eqn:Es;
    try discriminate.
  destruct (hex2buf a) as [salt|e] eqn:Ea; [|discriminate]. simpl bind.
  destruct (deriveBits _ _ _ _) as [bits|e] eqn:Ek; [|discriminate]. simpl.
  intros E. injection E as E. apply constantTimeEqual_eq in E. subst b.
  exists a, c, salt, bits.
  destruct (split_three _ _ _ _ _ Es) as (Hs & _).
  repeat split; try assumption.
  rewrite <- Ek, buf2hex_length. f_equal. lia.
Qed.

(** X5. Replacing the key field of a credential that verifies by any
    other string of the same length makes verification answer [false]
    (a changed hex digit is not accepted and does not throw). *)
Theorem tampered_key_rejected (password hashHex : jsstring)
  (salt key : list Byte.byte) (n : N) :
  n <= 2 ^ 53 ->
  deriveBits (encode password) salt (Int n) (N.of_nat (length key) * 8) = Ok key ->
  length hashHex = length (buf2hex key) ->
  hashHex <> buf2hex key ->
  ~ In 58 hashHex ->
  verifyPassword password (encodedCredential salt key n) = Ok true
  /\ verifyPassword password
       (buf2hex salt ++ str ":" ++ hashHex ++ str ":" ++ toString10 n)
     = Ok false.
Proof.
  intros Hn Hkdf Hlen Hne Hcolon. split.
  - rewrite verifyPassword_credential, Hkdf by assumption. simpl.
    f_equal. now apply constantTimeEqual_eq.
  - rewrite verifyPassword_fields;
      try apply buf2hex_no_colon; try apply digits_not_colon; try assumption.
    rewrite hex2buf_buf2hex. simpl bind.
    rewrite Number_toString10 by assumption.
    rewrite Hlen, buf2hex_length.
    replace (N.of_nat (2 * length key) * 4) with (N.of_nat (length key) * 8) by lia.
    rewrite Hkdf. simpl. f_equal.
    destruct (constantTimeEqual _ _) eqn:E; [|reflexivity].
    apply constantTimeEqual_eq in E. now contradiction Hne.
Qed.

(** X6. The string [hashPassword] returns determines the salt it drew
    and the key it derived: two calls that return the same string drew
    the same salt and derived the same key, so calls with different
    salts return different strings, also for the same password. *)
Theorem credential_determines_salt_and_key (password password' : jsstring)
  (random random' : nat -> Byte.byte) (stored : jsstring) :
  hashPassword password random = Ok stored ->
  hashPassword password' random' = Ok stored ->
  getRandomValues random SALT_LEN = getRandomValues random' SALT_LEN
  /\ deriveBits (encode password) (getRandomValues random SALT_LEN)
       (Int ITERATIONS) (KEY_LEN * 8)
     = deriveBits (encode password') (getRandomValues random' SALT_LEN)
         (Int ITERATIONS) (KEY_LEN * 8).
Proof.
  intros H1 H2.
  destruct (deriveBits (encode password) (getRandomValues random SALT_LEN)
              (Int ITERATIONS) (KEY_LEN * 8)) as [bits|e] eqn:E1.
  2: { unfold PasswordHash.hashPassword in H1. cbv zeta in H1.
       rewrite E1 in H1. discriminate H1. }
  destruct (deriveBits (encode password') (getRandomValues random' SALT_LEN)
              (Int ITERATIONS) (KEY_LEN * 8)) as [bits'|e] eqn:E2.
  2: { unfold PasswordHash.hashPassword in H2. cbv zeta in H2.
       rewrite E2 in H2. discriminate H2. }
  rewrite (hashPassword_credential encode deriveBits _ _ _ E1) in H1.
  rewrite (hashPassword_credential encode deriveBits _ _ _ E2) in H2.
  rewrite <- H1 in H2. injection H2 as H2.
  apply (f_equal (split 58)) in H2. rewrite !split_credential in H2.
  injection H2 as Hs Hk.
  apply buf2hex_inj in Hs, Hk. split; [now symmetry|now subst].
Qed.

(** X7. The number of parts is one more than the number of colons: a
    stored string with any number of colons other than two is rejected
    as malformed, and one with exactly two colons is cut at them into
    fields free of colons. *)
Theorem colons_decide_malformed (password stored : jsstring) :
  length (split 58 stored) = S (count_occ N.eq_dec stored 58)
  /\ (count_occ N.eq_dec stored 58 <> 2%nat ->
      verifyPassword password stored = Throw MalformedCredential)
  /\ (count_occ N.eq_dec stored 58 = 2%nat ->
      exists a b c,
        stored = a ++ str ":" ++ b ++ str ":" ++ c
        /\ ~ In 58 a /\ ~ In 58 b /\ ~ In 58 c
        /\ verifyPassword password stored
           = (salt <- hex2buf a ;;
              bits <- deriveBits (encode password) salt (Number_ c)
                        (N.of_nat (length b) * 4) ;;
              Ok (constantTimeEqual (buf2hex bits) b))).
Proof.
  pose proof (split_length 58 stored) as Hlen.
  split; [exact Hlen|]. split.
  - intros Hc. unfold PasswordHash.verifyPassword.
    destruct (split 58 stored) as [|p1 [|p2 [|p3 [|p4 ps]]]];
      try reflexivity.
    simpl in Hlen. exfalso. apply Hc. lia.
  - intros Hc. rewrite Hc in Hlen.
    destruct (split 58 stored) as [|a [|b [|c [|d ps]]]] eqn:Es;
      try discriminate Hlen.
    destruct (split_three _ _ _ _ _ Es) as (Hs & Ha & Hb & Hcc).
    exists a, b, c. repeat split; try assumption.
    unfold PasswordHash.verifyPassword. now rewrite Es.
Qed.

End MoreCredentials.


Lemma verify_accepts_hashed_core (encode : jsstring -> list Byte.byte)
  (deriveBits : list Byte.byte -> list Byte.byte -> number -> N
                -> result (list Byte.byte))
  (password : jsstring) (random : nat -> Byte.byte) (bits : list Byte.byte) :
  deriveBits (encode password) (getRandomValues random SALT_LEN)
    (Int ITERATIONS) (KEY_LEN * 8) = Ok bits ->
  length bits = N.to_nat KEY_LEN ->
  exists stored,
    hashPassword encode deriveBits password random = Ok stored
    /\ verifyPassword encode deriveBits password stored = Ok true.
Proof.
  intros Hkdf Hlen.
  exists (encodedCredential (getRandomValues random SALT_LEN) bits ITERATIONS).
  split; [now apply hashPassword_credential|].
  rewrite verifyPassword_credential by (vm_compute; discriminate).
  rewrite Hlen, N2Nat.id, Hkdf. simpl.
  f_equal. now apply constantTimeEqual_eq.
Qed.

(** * Further properties of the session handling *)

Section MoreSessions.

Variable LocalTZA : Z -> bool -> Z.
Variable monthStartDay : Z -> Z.
Variable encode : jsstring -> list Byte.byte.
Variable deriveBits :
  list Byte.byte -> list Byte.byte -> number -> N -> result (list Byte.byte).

Local Abbreviation expiry t0 :=
  (setDate LocalTZA monthStartDay t0 (getDate LocalTZA monthStartDay t0 + 30)).
Local Abbreviation register := (register LocalTZA monthStartDay encode deriveBits).
Local Abbreviation login := (login LocalTZA monthStartDay encode deriveBits).
Local Abbreviation handle := (handle LocalTZA monthStartDay encode deriveBits).
Local Abbreviation serve := (serve LocalTZA monthStartDay encode deriveBits).

Local Open Scope Z_scope.

(** [register], branch by branch. *)
Lemma register_cases (e p n : jsstring) (random : nat -> Byte.byte)
  (t : jsstring) (t0 t1 : Z) (db : database) :
  register e p n random t t0 t1 db
  = match selectUsersByEmail e db with
    | _ :: _ =>
        (Ok (json_error "User already exists" 400, keepCookie),
         run (SelectUserIdByEmail e) db)
    | [] =>
        let db2 := run (SelectUserIdByUsername n) (run (SelectUserIdByEmail e) db) in
        match selectUsersByUsername n db with
        | _ :: _ => (Ok (json_error "Username already taken" 400, keepCookie), db2)
        | [] =>
            match hashPassword encode deriveBits p random with
            | Throw err => (Throw err, db2)
            | Ok hashed =>
                let i := user_seq db + 1 in
                let u := mkUser i e hashed n None None in
                let db3 := mkDB (users db ++ [u]) (sessions db) i (session_seq db)
                             (statements db2 ++ [InsertUser e hashed n]) in
                let q := InsertSession i t (t1 / 1000) (expiry t0 / 1000) in
                match selectSessions t db with
                | _ :: _ => (Throw (PlatformError "SQLITE_CONSTRAINT"), run q db3)
                | [] =>
                    (Ok (json_user (mkView i e n None None),
                         setCookie t (expiry t0)),
                     mkDB (users db3)
                          (sessions db
                             ++ [mkSession (session_seq db + 1) i t (t1 / 1000)
                                   (expiry t0 / 1000)])
                          i (session_seq db + 1) (statements db3 ++ [q]))
                end
            end
        end
    end.
Proof.
  unfold Index.register.
  destruct (selectUsersByEmail e db) eqn:Ee; [|reflexivity].
  destruct (selectUsersByUsername n db) eqn:En; [|reflexivity].
  destruct (hashPassword encode deriveBits p random) as [hashed|err];
    [|reflexivity].
  unfold insertUser.
  change (selectUsersByEmail e (run (SelectUserIdByUsername n)
                                  (run (SelectUserIdByEmail e) db)))
    with (selectUsersByEmail e db).
  change (selectUsersByUsername n (run (SelectUserIdByUsername n)
                                     (run (SelectUserIdByEmail e) db)))
    with (selectUsersByUsername n db).
  rewrite Ee, En. cbv zeta.
  unfold Index.createSession, insertSession.
  match goal with
  | |- context [selectSessions t ?d] =>
      change (selectSessions t d) with (selectSessions t db)
  end.
  destruct (selectSessions t db); reflexivity.
Qed.

(** [login], branch by branch. *)
Lemma login_cases (e p t : jsstring) (t0 t1 : Z) (db : database) :
  login e p t t0 t1 db
  = let db1 := run (SelectUserByEmail e) db in
    match selectUsersByEmail e db with
    | [] => (Ok (json_error "User not found" 404, keepCookie), db1)
    | user :: _ =>
        match verifyPassword encode deriveBits p (password user) with
        | Throw err => (Throw err, db1)
        | Ok false => (Ok (json_error "Invalid credentials" 401, keepCookie), db1)
        | Ok true =>
            let q := InsertSession (id user) t (t1 / 1000) (expiry t0 / 1000) in
            match selectSessions t db with
            | _ :: _ => (Throw (PlatformError "SQLITE_CONSTRAINT"), run q db1)
            | [] =>
                (Ok (json_user (mkView (id user) (email user) (username user)
                                  (description user) None),
                     setCookie t (expiry t0)),
                 mkDB (users db)
                      (sessions db
                         ++ [mkSession (session_seq db + 1) (id user) t
                               (t1 / 1000) (expiry t0 / 1000)])
                      (user_seq db) (session_seq db + 1)
                      (statements db1 ++ [q]))
            end
        end
    end.
Proof.
  unfold Index.login. cbv zeta.
  destruct (selectUsersByEmail e db) as [|user l]; [reflexivity|].
  destruct (verifyPassword encode deriveBits p (password user)) as [[|]|err];
    try reflexivity.
  unfold Index.createSession, insertSession.
  change (selectSessions t (run (SelectUserByEmail e) db))
    with (selectSessions t db).
  destruct (selectSessions t db); reflexivity.
Qed.

Lemma filter_app_nil {A} (f : A -> bool) (l : list A) (x : A) :
  filter f l = [] -> f x = true -> filter f (l ++ [x]) = [x].
Proof. intros Hl Hx. rewrite filter_app, Hl. simpl. now rewrite Hx. Qed.

Lemma selectUsersById_fresh (i : Z) (us : list user_row) :
  Forall (fun u => id u <= i) us ->
  filter (fun u => Z.eqb (id u) (i + 1)) us = [].
Proof.
  induction 1 as [|u us Hu _ IH]; [reflexivity|]. simpl.
  destruct (Z.eqb_spec (id u) (i + 1)); [lia|exact IH].
Qed.

Lemma selected_email (e : jsstring) (db : database) (u : user_row)
  (l : list user_row) :
  selectUsersByEmail e db = u :: l -> email u = e /\ In u (users db).
Proof.
  intros E. assert (H : In u (selectUsersByEmail e db)) by (rewrite E; now left).
  unfold selectUsersByEmail in H. apply filter_In in H.
  destruct H as [Hin H]. apply jsstring_eqb_eq in H. now split.
Qed.

(** X8. A registration that answers with the new user has opened a
    session for it: presenting the issued token at any time before the
    expiry second resolves to exactly the user of the answer. The user
    counter bounds the ids in the table, as an AUTOINCREMENT counter
    does. *)
Theorem register_then_validate (e p n : jsstring) (random : nat -> Byte.byte)
  (t : jsstring) (t0 t1 now : Z) (db db' : database) (v : user_view)
  (cookie : cookie_action) :
  register e p n random t t0 t1 db = (Ok (json_user v, cookie), db') ->
  t <> [] ->
  Forall (fun u => id u <= user_seq db) (users db) ->
  now / 1000 < expiry t0 / 1000 ->
  cookie = setCookie t (expiry t0)
  /\ fst (getUserFromSession (Some t) now db') = Some v
  /\ view_email v = e /\ view_username v = n.
Proof.
  rewrite register_cases. intros H Ht Hids Hnow.
  destruct (selectUsersByEmail e db); [|discriminate H].
  destruct (selectUsersByUsername n db); [|discriminate H].
  destruct (hashPassword encode deriveBits p random) as [hashed|err];
    [|discriminate H].
  cbv zeta in H.
  destruct (selectSessions t db) eqn:Es; [|discriminate H].
  injection H as <- <- <-. split; [reflexivity|]. split; [|now split].
  unfold getUserFromSession. destruct t as [|x t]; [now contradiction Ht|].
  unfold selectSessions in *. cbn [sessions users].
  rewrite (filter_app_nil _ _ _ Es) by (apply jsstring_eqb_refl).
  cbn [expires_at user_id].
  destruct (Z.geb_spec (now / 1000) (expiry t0 / 1000)); [lia|].
  unfold selectUsersById. cbn [users].
  rewrite filter_app, (selectUsersById_fresh _ _ Hids). simpl.
  now rewrite Z.eqb_refl.
Qed.

(** X9. After a registration that answers with the new user, a login
    with the same email and password, handed a token no session has,
    succeeds: it answers with that user and sets the cookie to the new
    token. The key derivation returns the [KEY_LEN] bytes it is asked
    for. *)
Theorem register_then_login (e p n : jsstring) (random : nat -> Byte.byte)
  (t t' : jsstring) (t0 t1 t0' t1' : Z) (db db' : database) (v : user_view)
  (cookie : cookie_action) :
  register e p n random t t0 t1 db = (Ok (json_user v, cookie), db') ->
  (forall bits,
     deriveBits (encode p) (getRandomValues random SALT_LEN) (Int ITERATIONS)
       (KEY_LEN * 8) = Ok bits ->
     length bits = N.to_nat KEY_LEN) ->
  selectSessions t' db' = [] ->
  fst (login e p t' t0' t1' db') = Ok (json_user v, setCookie t' (expiry t0')).
Proof.
  rewrite register_cases. intros H Hlen Hfresh.
  destruct (selectUsersByEmail e db) eqn:Ee; [|discriminate H].
  destruct (selectUsersByUsername n db); [|discriminate H].
  destruct (hashPassword encode deriveBits p random) as [hashed|err] eqn:Eh;
    [|discriminate H].
  cbv zeta in H.
  destruct (selectSessions t db); [|discriminate H].
  injection H as <- <- <-.
  rewrite login_cases. cbv zeta.
  unfold selectUsersByEmail in *. cbn [users].
  rewrite (filter_app_nil _ _ _ Ee) by (apply jsstring_eqb_refl).
  cbn [password].
  assert (Hv : verifyPassword encode deriveBits p hashed = Ok true).
  { unfold hashPassword in Eh. cbv zeta in Eh.
    destruct (deriveBits (encode p) (getRandomValues random SALT_LEN)
                (Int ITERATIONS) (KEY_LEN * 8)) as [bits|err] eqn:Ek;
      [|discriminate Eh].
    destruct (verify_accepts_hashed_core encode deriveBits p random bits Ek
                (Hlen bits eq_refl)) as (stored & Hs & Hok).
    rewrite (hashPassword_credential encode deriveBits _ _ _ Ek) in Hs.
    simpl in Eh. injection Eh as <-. injection Hs as <-. exact Hok. }
  rewrite Hv, Hfresh. reflexivity.
Qed.

(** X10. [login] opens a session, sets the cookie or answers with a
    user only after [verifyPassword] has answered [true] for the stored
    password of the first user with the email; an unknown email is
    answered 404 and a wrong password 401, both without touching the
    tables. *)
Theorem login_requires_verification (e p t : jsstring) (t0 t1 : Z)
  (db : database) :
  (sessions (snd (login e p t t0 t1 db)) <> sessions db
   \/ (exists resp tk ex, fst (login e p t t0 t1 db) = Ok (resp, setCookie tk ex))
   \/ (exists v c, fst (login e p t t0 t1 db) = Ok (json_user v, c)) ->
   exists user rest,
     selectUsersByEmail e db = user :: rest
     /\ verifyPassword encode deriveBits p (password user) = Ok true)
  /\ (selectUsersByEmail e db = [] ->
      fst (login e p t t0 t1 db) = Ok (json_error "User not found" 404, keepCookie)
      /\ sessions (snd (login e p t t0 t1 db)) = sessions db
      /\ users (snd (login e p t t0 t1 db)) = users db)
  /\ (forall user rest,
        selectUsersByEmail e db = user :: rest ->
        verifyPassword encode deriveBits p (password user) = Ok false ->
        fst (login e p t t0 t1 db)
        = Ok (json_error "Invalid credentials" 401, keepCookie)
        /\ sessions (snd (login e p t t0 t1 db)) = sessions db
        /\ users (snd (login e p t t0 t1 db)) = users db).
Proof.
  rewrite login_cases. cbv zeta. split; [|split].
  - destruct (selectUsersByEmail e db) as [|user rest].
    + simpl. intros [H|[(r & tk & ex & H)|(v & c & H)]];
        [now contradiction H|discriminate H|discriminate H].
    + destruct (verifyPassword encode deriveBits p (password user))
        as [[|]|err] eqn:Ev.
      * intros _. now exists user, rest.
      * simpl. intros [H|[(r & tk & ex & H)|(v & c & H)]];
          [now contradiction H|discriminate H|discriminate H].
      * simpl. intros [H|[(r & tk & ex & H)|(v & c & H)]];
          [now contradiction H|discriminate H|discriminate H].
  - intros ->. now repeat split.
  - intros user rest -> ->. now repeat split.
Qed.

Lemma filter_nonempty {A} (f : A -> bool) (l : list A) (x : A) :
  In x l -> f x = true -> filter f l <> [].
Proof.
  intros Hin Hx E.
  assert (H : In x (filter f l)) by (apply filter_In; now split).
  now rewrite E in H.
Qed.

(** X11. [register] never adds an account for an email or a username
    the users table already has: it answers 400 and leaves the users
    and sessions tables as they were. *)
Theorem register_rejects_taken (e p n : jsstring) (random : nat -> Byte.byte)
  (t : jsstring) (t0 t1 : Z) (db : database) :
  In e (map email (users db)) \/ In n (map username (users db)) ->
  (exists msg,
     fst (register e p n random t t0 t1 db) = Ok (json_error msg 400, keepCookie))
  /\ users (snd (register e p n random t t0 t1 db)) = users db
  /\ sessions (snd (register e p n random t t0 t1 db)) = sessions db.
Proof.
  rewrite register_cases. intros H.
  destruct (selectUsersByEmail e db) as [|u l] eqn:Ee; [|simpl; eauto].
  destruct (selectUsersByUsername n db) as [|u l] eqn:En; [|simpl; eauto].
  exfalso. destruct H as [H|H]; apply in_map_iff in H;
    destruct H as (u & <- & Hin).
  - apply (filter_nonempty (fun u' => jsstring_eqb (email u') (email u)) _ u Hin);
      [apply jsstring_eqb_refl|exact Ee].
  - apply (filter_nonempty (fun u' => jsstring_eqb (username u') (username u)) _ u Hin);
      [apply jsstring_eqb_refl|exact En].
Qed.

Lemma getUserFromSession_keeps (c : option jsstring) (now : Z) (db : database) :
  users (snd (getUserFromSession c now db)) = users db
  /\ user_seq (snd (getUserFromSession c now db)) = user_seq db
  /\ session_seq (snd (getUserFromSession c now db)) = session_seq db
  /\ (forall t', c <> Some t' ->
        selectSessions t' (snd (getUserFromSession c now db))
        = selectSessions t' db).
Proof.
  unfold getUserFromSession.
  destruct c as [[|x t]|]; try (now repeat split).
  destruct (selectSessions (x :: t) db) as [|s rest]; [now repeat split|].
  destruct (_ >=? _).
  - do 3 (split; [reflexivity|]). intros t' Hne.
    apply (selectSessions_delete_other (x :: t) t'
             (run (SelectSessionByToken (x :: t)) db)).
    intros ->. now apply Hne.
  - destruct (selectUsersById (user_id s) db); now repeat split.
Qed.

(** X12. What a validation can change. It never touches the users
    table nor the counters; it leaves the sessions of every token other
    than the presented one alone; it changes the sessions table only
    when it answers [null] for a token whose first session has expired;
    in particular the session of a user that no longer exists is
    answered [null] and stays in the table until it expires. *)
Theorem validation_effects (c : option jsstring) (now : Z) (db : database) :
  users (snd (getUserFromSession c now db)) = users db
  /\ user_seq (snd (getUserFromSession c now db)) = user_seq db
  /\ session_seq (snd (getUserFromSession c now db)) = session_seq db
  /\ (forall t', c <> Some t' ->
        selectSessions t' (snd (getUserFromSession c now db))
        = selectSessions t' db)
  /\ (sessions (snd (getUserFromSession c now db)) <> sessions db ->
      fst (getUserFromSession c now db) = None
      /\ exists t s rest,
           c = Some t /\ selectSessions t db = s :: rest
           /\ expires_at s <= now / 1000)
  /\ (forall t s rest,
        c = Some t -> t <> [] ->
        selectSessions t db = s :: rest ->
        now / 1000 < expires_at s ->
        selectUsersById (user_id s) db = [] ->
        fst (getUserFromSession c now db) = None
        /\ sessions (snd (getUserFromSession c now db)) = sessions db).
Proof.
  unfold getUserFromSession.
  destruct c as [[|x t]|].
  - simpl. do 3 (split; [reflexivity|]). split; [reflexivity|].
    split; [intros H; now contradiction H|].
    intros t s rest E Ht. injection E as <-. now contradiction Ht.
  - destruct (selectSessions (x :: t) db) as [|s rest] eqn:Es.
    + simpl. do 3 (split; [reflexivity|]). split; [reflexivity|].
      split; [intros H; now contradiction H|].
      intros t0 s rest E _ Hs. injection E as <-.
      rewrite Es in Hs. discriminate Hs.
    + destruct (Z.geb_spec (now / 1000) (expires_at s)) as [Hexp|Hlive].
      * cbn [fst snd]. do 3 (split; [reflexivity|]). split; [|split].
        -- intros t' Hne.
           apply (selectSessions_delete_other (x :: t) t'
                    (run (SelectSessionByToken (x :: t)) db)).
           intros ->. now apply Hne.
        -- intros _. split; [reflexivity|].
           exists (x :: t), s, rest. now repeat split.
        -- intros t0 s0 rest0 E _ Hs Hlt. injection E as <-.
           rewrite Es in Hs. injection Hs as <- <-. lia.
      * destruct (selectUsersById (user_id s) db) as [|u l] eqn:Eu.
        -- simpl. do 3 (split; [reflexivity|]). split; [reflexivity|].
           split; [intros H; now contradiction H|].
           intros; now split.
        -- simpl. do 3 (split; [reflexivity|]). split; [reflexivity|].
           split; [intros H; now contradiction H|].
           intros t0 s0 rest0 E _ Hs _ Hu. injection E as <-.
           rewrite Es in Hs. injection Hs as <- <-.
           rewrite Eu in Hu. discriminate Hu.
  - simpl. do 3 (split; [reflexivity|]). split; [reflexivity|].
    split; [intros H; now contradiction H|].
    intros t s rest E. discriminate E.
Qed.

Lemma getUserFromSession_ext (c : option jsstring) (now : Z) (db1 db2 : database) :
  (forall t, c = Some t -> selectSessions t db1 = selectSessions t db2) ->
  users db1 = users db2 ->
  fst (getUserFromSession c now db1) = fst (getUserFromSession c now db2).
Proof.
  intros Hs Hu. unfold getUserFromSession.
  destruct c as [[|x t]|]; try reflexivity.
  rewrite (Hs _ eq_refl).
  destruct (selectSessions (x :: t) db2) as [|s rest]; [reflexivity|].
  destruct (_ >=? _); [reflexivity|].
  unfold selectUsersById. rewrite Hu.
  now destruct (filter _ (users db2)).
Qed.

(** X13. Sessions are independent of one another: logging out with one
    cookie, or validating one cookie (which may purge its expired
    session), does not change what the validation of any other token
    answers. *)
Theorem other_sessions_unaffected (c : option jsstring) (t' : jsstring)
  (now now' : Z) (db : database) :
  c <> Some t' ->
  fst (getUserFromSession (Some t') now' (snd (logout c db)))
  = fst (getUserFromSession (Some t') now' db)
  /\ fst (getUserFromSession (Some t') now' (snd (getUserFromSession c now db)))
     = fst (getUserFromSession (Some t') now' db).
Proof.
  intros Hne. split.
  - apply getUserFromSession_ext.
    + intros t E. injection E as <-. unfold logout.
      destruct c as [[|x t]|]; try reflexivity.
      apply selectSessions_delete_other. intros ->. now apply Hne.
    + unfold logout. now destruct c as [[|x t]|].
  - destruct (getUserFromSession_keeps c now db) as (Hu & _ & _ & Hs).
    apply getUserFromSession_ext; [|exact Hu].
    intros t E. injection E as <-. now apply Hs.
Qed.

(** X14. Whenever a handler sets the session cookie, it has inserted the
    session row of that token, for the user of its answer, and the row
    expires in the second the cookie expires; no session had the token
    before. *)
Theorem cookie_matches_session_row (r : request) (db : database)
  (resp : response) (tk : jsstring) (ex : Z) :
  fst (handle r db) = Ok (resp, setCookie tk ex) ->
  issues r = Some tk
  /\ selectSessions tk db = []
  /\ exists row v,
       sessions (snd (handle r db)) = sessions db ++ [row]
       /\ token row = tk
       /\ expires_at row = ex / 1000
       /\ resp = json_user v
       /\ user_id row = view_id v.
Proof.
  destruct r as [e p n random t t0 t1|e p t t0 t1|c|c now]; simpl.
  - rewrite register_cases.
    destruct (selectUsersByEmail e db); [|discriminate].
    destruct (selectUsersByUsername n db); [|discriminate].
    destruct (hashPassword encode deriveBits p random); [|discriminate].
    cbv zeta. destruct (selectSessions t db) eqn:Es; [|discriminate].
    simpl. intros H. injection H as <- <- <-.
    split; [reflexivity|]. split; [exact Es|].
    eexists. eexists. repeat split.
  - rewrite login_cases. cbv zeta.
    destruct (selectUsersByEmail e db) as [|user l]; [discriminate|].
    destruct (verifyPassword encode deriveBits p (password user)) as [[|]|err];
      try discriminate.
    destruct (selectSessions t db) eqn:Es; [|discriminate].
    simpl. intros H. injection H as <- <- <-.
    split; [reflexivity|]. split; [exact Es|].
    eexists. eexists. repeat split.
  - destruct c as [[|x t]|]; discriminate.
  - unfold me. destruct (getUserFromSession c now db) as [[u|] d]; discriminate.
Qed.

End MoreSessions.

(** * Properties of the profile update and of the tweets *)

Section MoreRoutes.

Local Open Scope Z_scope.

Lemma update_cases (c : option jsstring) (now : Z) (n d ph : option jsstring)
  (db : database) :
  update c now n d ph db
  = let db1 := snd (getUserFromSession c now db) in
    match fst (getUserFromSession c now db) with
    | None => (Ok (json_error "Unauthorized" 401, keepCookie), db1)
    | Some user =>
        match n, d, ph with
        | None, None, None => (Ok (json_user user, keepCookie), db1)
        | _, _, _ =>
            if usernameTaken (view_id user) n db1 then
              (Throw (PlatformError "SQLITE_CONSTRAINT"), db1)
            else
              (Ok (json_success, keepCookie),
               mkDB (map (fun u => if Z.eqb (id u) (view_id user)
                                   then setFields n d ph u else u) (users db1))
                    (sessions db1) (user_seq db1) (session_seq db1)
                    (statements db1))
        end
    end.
Proof.
  unfold update, updateUsers.
  destruct (getUserFromSession c now db) as [[user|] db1]; [|reflexivity].
  cbn [fst snd]. cbv zeta.
  destruct n, d, ph; try reflexivity;
    destruct (usernameTaken _ _ _); reflexivity.
Qed.

Lemma map_setFields_columns (i : Z) (n d ph : option jsstring)
  (l : list user_row) :
  let f := fun u => if Z.eqb (id u) i then setFields n d ph u else u in
  map id (map f l) = map id l
  /\ map email (map f l) = map email l
  /\ map password (map f l) = map password l
  /\ filter (fun u => negb (Z.eqb (id u) i)) (map f l)
     = filter (fun u => negb (Z.eqb (id u) i)) l.
Proof.
  intros f. rewrite !map_map. repeat split.
  - apply map_ext. intros u. unfold f. now destruct (_ =? _).
  - apply map_ext. intros u. unfold f. now destruct (_ =? _).
  - apply map_ext. intros u. unfold f. now destruct (_ =? _).
  - induction l as [|u l IH]; [reflexivity|]. simpl. unfold f at 1 2.
    destruct (Z.eqb (id u) i) eqn:E; simpl; [rewrite E|rewrite E]; simpl;
      now rewrite IH.
Qed.

Lemma update_users (c : option jsstring) (now : Z) (n d ph : option jsstring)
  (db : database) :
  users (snd (update c now n d ph db)) = users db
  \/ exists v,
       fst (getUserFromSession c now db) = Some v
       /\ fst (update c now n d ph db) = Ok (json_success, keepCookie)
       /\ usernameTaken (view_id v) n (snd (getUserFromSession c now db)) = false
       /\ users (snd (update c now n d ph db))
          = map (fun u => if Z.eqb (id u) (view_id v)
                          then setFields n d ph u else u) (users db).
Proof.
  rewrite update_cases. cbv zeta.
  destruct (getUserFromSession_keeps c now db) as (Hu & _).
  destruct (fst (getUserFromSession c now db)) as [user|]; [|now left].
  destruct n as [x|], d as [y|], ph as [z|]; try (now left);
    (destruct (usernameTaken (view_id user) _ _) eqn:Et; [now left|];
     right; exists user; cbn [fst snd users]; rewrite Hu; now repeat split).
Qed.

Lemma update_sessions (c : option jsstring) (now : Z) (n d ph : option jsstring)
  (db : database) :
  sessions (snd (update c now n d ph db))
  = sessions (snd (getUserFromSession c now db))
  /\ user_seq (snd (update c now n d ph db)) = user_seq db.
Proof.
  rewrite update_cases. cbv zeta.
  destruct (getUserFromSession_keeps c now db) as (_ & Hq & _).
  destruct (fst (getUserFromSession c now db)) as [user|]; [|now split].
  destruct n as [x|], d as [y|], ph as [z|]; try (now split);
    (destruct (usernameTaken (view_id user) _ _); now split).
Qed.

(** X15. A profile update never changes an id, an email or a stored
    password, and never changes the row of a user other than the one
    the session resolves to; the sessions table is left as the
    validation of the cookie leaves it. Without a valid session it
    answers 401, and with an empty body it answers with the user; in
    both cases the users table is untouched. *)
Theorem update_frame (c : option jsstring) (now : Z) (n d ph : option jsstring)
  (db : database) :
  map id (users (snd (update c now n d ph db))) = map id (users db)
  /\ map email (users (snd (update c now n d ph db))) = map email (users db)
  /\ map password (users (snd (update c now n d ph db)))
     = map password (users db)
  /\ sessions (snd (update c now n d ph db))
     = sessions (snd (getUserFromSession c now db))
  /\ (forall v, fst (getUserFromSession c now db) = Some v ->
        filter (fun u => negb (Z.eqb (id u) (view_id v)))
               (users (snd (update c now n d ph db)))
        = filter (fun u => negb (Z.eqb (id u) (view_id v))) (users db))
  /\ (fst (getUserFromSession c now db) = None ->
      fst (update c now n d ph db) = Ok (json_error "Unauthorized" 401, keepCookie)
      /\ users (snd (update c now n d ph db)) = users db)
  /\ (forall v, fst (getUserFromSession c now db) = Some v ->
        n = None -> d = None -> ph = None ->
        fst (update c now n d ph db) = Ok (json_user v, keepCookie)
        /\ users (snd (update c now n d ph db)) = users db).
Proof.
  pose proof (update_users c now n d ph db) as Hus.
  split; [|split; [|split; [|split; [|split; [|split]]]]].
  - destruct Hus as [->|(v & _ & _ & _ & ->)]; [reflexivity|].
    apply map_setFields_columns.
  - destruct Hus as [->|(v & _ & _ & _ & ->)]; [reflexivity|].
    apply map_setFields_columns.
  - destruct Hus as [->|(v & _ & _ & _ & ->)]; [reflexivity|].
    apply map_setFields_columns.
  - apply update_sessions.
  - intros v Hv. destruct Hus as [->|(v' & Hv' & _ & _ & ->)]; [reflexivity|].
    rewrite Hv in Hv'. injection Hv' as <-. apply map_setFields_columns.
  - intros Hnone. rewrite update_cases. cbv zeta. rewrite Hnone.
    split; [reflexivity|]. apply getUserFromSession_keeps.
  - intros v Hv -> -> ->. rewrite update_cases. cbv zeta. rewrite Hv.
    split; [reflexivity|]. apply getUserFromSession_keeps.
Qed.

Lemma getUserFromSession_view (c : option jsstring) (now : Z) (db : database)
  (v : user_view) :
  fst (getUserFromSession c now db) = Some v ->
  exists t s rest u l,
    c = Some t /\ t <> [] /\ selectSessions t db = s :: rest
    /\ now / 1000 < expires_at s
    /\ selectUsersById (user_id s) db = u :: l
    /\ id u = user_id s
    /\ v = mkView (id u) (email u) (username u) (description u) (profile_photo u).
Proof.
  unfold getUserFromSession.
  destruct c as [[|x t]|]; try discriminate.
  destruct (selectSessions (x :: t) db) as [|s rest] eqn:Es; [discriminate|].
  destruct (Z.geb_spec (now / 1000) (expires_at s)); [discriminate|].
  destruct (selectUsersById (user_id s) db) as [|u l] eqn:Eu; [discriminate|].
  simpl. intros E. injection E as <-.
  exists (x :: t), s, rest, u, l. repeat split; try assumption; try discriminate.
  assert (Hin : In u (selectUsersById (user_id s) db)) by (rewrite Eu; now left).
  apply filter_In in Hin. destruct Hin as [_ Hin]. now apply Z.eqb_eq.
Qed.

Lemma update_success (c : option jsstring) (now : Z) (n d ph : option jsstring)
  (db : database) :
  fst (update c now n d ph db) = Ok (json_success, keepCookie) ->
  exists v,
    fst (getUserFromSession c now db) = Some v
    /\ usernameTaken (view_id v) n (snd (getUserFromSession c now db)) = false
    /\ users (snd (update c now n d ph db))
       = map (fun u => if Z.eqb (id u) (view_id v)
                       then setFields n d ph u else u) (users db).
Proof.
  rewrite update_cases. cbv zeta.
  destruct (getUserFromSession_keeps c now db) as (Hu & _).
  destruct (fst (getUserFromSession c now db)) as [user|]; [|discriminate].
  destruct n as [x|], d as [y|], ph as [z|]; try discriminate;
    (destruct (usernameTaken (view_id user) _ _) eqn:Et; [discriminate|];
     intros _; exists user; cbn [fst snd users]; rewrite Hu; now repeat split).
Qed.

(** X16. After a profile update that answers [success], the session the
    update was made with resolves to the same user with the provided
    fields replaced and the others kept: whenever validating the cookie
    at some time gave a user before the update, it gives that user with
    the new username, description and photo after it. *)
Theorem update_then_validate (c : option jsstring) (now now' : Z)
  (n d ph : option jsstring) (db : database) (v : user_view) :
  fst (update c now n d ph db) = Ok (json_success, keepCookie) ->
  fst (getUserFromSession c now' db) = Some v ->
  fst (getUserFromSession c now' (snd (update c now n d ph db)))
  = Some (mkView (view_id v) (view_email v)
            (match n with Some x => x | None => view_username v end)
            (match d with Some x => Some x | None => view_description v end)
            (match ph with Some x => Some x | None => view_profilePhoto v end)).
Proof.
  intros Hok Hv'.
  destruct (getUserFromSession_view _ _ _ _ Hv')
    as (t & s & rest & u & l & -> & Ht & Es & Hlive & Eu & Hid & ->).
  assert (Hv : fst (getUserFromSession (Some t) now db)
               = Some (mkView (id u) (email u) (username u) (description u)
                         (profile_photo u))).
  { rewrite update_cases in Hok. cbv zeta in Hok.
    destruct (fst (getUserFromSession (Some t) now db)) as [w|] eqn:Ew;
      [|discriminate Hok].
    destruct (getUserFromSession_view _ _ _ _ Ew)
      as (t2 & s2 & rest2 & u2 & l2 & E & _ & Es2 & _ & Eu2 & _ & ->).
    injection E as <-. rewrite Es in Es2. injection Es2 as <- <-.
    rewrite Eu in Eu2. now injection Eu2 as <- <-. }
  assert (Hsess : selectSessions t (snd (update (Some t) now n d ph db))
                  = s :: rest).
  { unfold selectSessions.
    rewrite (proj1 (update_sessions (Some t) now n d ph db)).
    revert Hv. unfold getUserFromSession.
    destruct t as [|x t]; [discriminate|]. rewrite Es.
    destruct (_ >=? _); [discriminate|].
    now destruct (selectUsersById (user_id s) db). }
  destruct (update_success _ _ _ _ _ _ Hok) as (w & Hw & _ & Hmap).
  rewrite Hv in Hw. injection Hw as <-. cbn [view_id] in Hmap.
  unfold getUserFromSession. destruct t as [|x t]; [now contradiction Ht|].
  rewrite Hsess.
  destruct (Z.geb_spec (now' / 1000) (expires_at s)); [lia|].
  unfold selectUsersById in *. rewrite Hmap.
  { assert (Hf : filter (fun u0 => Z.eqb (id u0) (user_id s))
                   (map (fun u0 => if Z.eqb (id u0) (id u)
                                   then setFields n d ph u0 else u0) (users db))
                 = map (setFields n d ph)
                       (filter (fun u0 => Z.eqb (id u0) (user_id s)) (users db))).
    { rewrite Hid. clear. induction (users db) as [|a us IH]; [reflexivity|].
      simpl. destruct (Z.eqb (id a) (user_id s)) eqn:E; simpl.
      - rewrite E. simpl. now rewrite IH.
      - rewrite E. exact IH. }
    rewrite Hf, Eu. simpl. reflexivity. }
Qed.

(** The photo rows a tweet gets. *)
Lemma insertPhotos_effects (k : Z) (l : list jsstring) (f : feed) :
  let f' := fold_left (fun g url => insertPhoto g k url) l f in
  tweets f' = tweets f
  /\ tweet_seq f' = tweet_seq f
  /\ photo_seq f' = photo_seq f + Z.of_nat (length l)
  /\ exists rows,
       photos f' = photos f ++ rows
       /\ map (fun p => (photo_tweet_id p, photo_url p)) rows
          = map (fun url => (k, url)) l.
Proof.
  revert f. induction l as [|url l IH]; intros f; cbv zeta.
  - simpl. repeat split; try lia. exists []. now rewrite app_nil_r.
  - simpl fold_left.
    destruct (IH (insertPhoto f k url)) as (Ht & Hs & Hp & rows & Hr & Hm).
    cbv zeta in Ht, Hs, Hp, Hr. rewrite Ht, Hs, Hp, Hr.
    repeat split; try (simpl; lia).
    exists (mkPhoto (photo_seq f + 1) k url :: rows). split.
    + simpl. now rewrite <- app_assoc.
    + simpl. now rewrite Hm.
Qed.

Lemma postTweet_cases (c : option jsstring) (authNow : Z) (text : jsstring)
  (images : option (list jsstring)) (now : Z) (db : database) (f : feed) :
  postTweet c authNow text images now (db, f)
  = let db1 := snd (getUserFromSession c authNow db) in
    match fst (getUserFromSession c authNow db) with
    | None => (tweet_error "Unauthorized" 401, (db1, f))
    | Some v =>
        let imgs := match images with Some l => l | None => [] end in
        let i := tweet_seq f + 1 in
        (tweet_created i (view_id v) text imgs (now / 1000),
         (db1,
          fold_left (fun g url => insertPhoto g i url) (firstn 4 imgs)
            (mkFeed (tweets f ++ [mkTweet i (view_id v) (Some text) (now / 1000)])
                    (photos f) i (photo_seq f))))
    end.
Proof.
  unfold postTweet.
  destruct (getUserFromSession c authNow db) as [[v|] db1]; [|reflexivity].
  cbn [fst snd]. unfold insertTweet. cbv zeta.
  destruct images as [[|x l]|]; reflexivity.
Qed.

Lemma postTweet_photos (c : option jsstring) (authNow : Z) (text : jsstring)
  (images : option (list jsstring)) (now : Z) (db : database) (f : feed)
  (v : user_view) :
  fst (getUserFromSession c authNow db) = Some v ->
  selectPhotos (snd (snd (postTweet c authNow text images now (db, f))))
  = selectPhotos f
      ++ map (fun url => (tweet_seq f + 1, url))
             (firstn 4 (match images with Some l => l | None => [] end)).
Proof.
  rewrite postTweet_cases. cbv zeta. intros ->. cbn [fst snd].
  match goal with
  | |- context [fold_left ?g ?l ?f0] =>
      destruct (insertPhotos_effects (tweet_seq f + 1) l f0)
        as (_ & _ & _ & rows & Hr & Hm)
  end.
  cbv zeta in Hr. unfold selectPhotos. rewrite Hr. cbn [photos].
  now rewrite map_app, Hm.
Qed.

(** X17. [POST /api/tweets] without a valid session answers 401 and
    inserts nothing. With one it inserts one tweet of the session's user
    with the text and the current second, and one photo for each of the
    first four images, in their order, all for the new tweet; the answer
    carries every image of the body, also those beyond the fourth that
    were not stored. *)
Theorem postTweet_effects (c : option jsstring) (authNow : Z) (text : jsstring)
  (images : option (list jsstring)) (now : Z) (db : database) (f : feed) :
  (fst (getUserFromSession c authNow db) = None ->
   postTweet c authNow text images now (db, f)
   = (tweet_error "Unauthorized" 401, (snd (getUserFromSession c authNow db), f)))
  /\ (forall v, fst (getUserFromSession c authNow db) = Some v ->
        let imgs := match images with Some l => l | None => [] end in
        let out := postTweet c authNow text images now (db, f) in
        fst out = tweet_created (tweet_seq f + 1) (view_id v) text imgs (now / 1000)
        /\ fst (snd out) = snd (getUserFromSession c authNow db)
        /\ tweets (snd (snd out))
           = tweets f ++ [mkTweet (tweet_seq f + 1) (view_id v) (Some text)
                            (now / 1000)]
        /\ selectPhotos (snd (snd out))
           = selectPhotos f
               ++ map (fun url => (tweet_seq f + 1, url)) (firstn 4 imgs)
        /\ tweet_seq (snd (snd out)) = tweet_seq f + 1).
Proof.
  rewrite postTweet_cases. cbv zeta. split.
  - now intros ->.
  - intros v ->. cbn [fst snd].
    match goal with
    | |- context [fold_left ?g ?l ?f0] =>
        destruct (insertPhotos_effects (tweet_seq f + 1) l f0)
          as (Ht & Hs & _ & rows & Hr & Hm)
    end.
    cbv zeta in Ht, Hs, Hr. rewrite Ht, Hs.
    split; [reflexivity|]. split; [reflexivity|]. split; [reflexivity|].
    split; [|reflexivity].
    unfold selectPhotos. rewrite Hr. cbn [photos]. now rewrite map_app, Hm.
Qed.

Lemma getProperty_setProperty (m : photoMap) (k k' : Z) (v : list jsstring) :
  getProperty (setProperty m k v) k'
  = if Z.eqb k k' then Some v else getProperty m k'.
Proof.
  induction m as [|[k0 v0] m IH]; simpl.
  - now destruct (Z.eqb k k').
  - destruct (Z.eqb_spec k0 k) as [->|Hne]; simpl.
    + now destruct (Z.eqb k k').
    + destruct (Z.eqb_spec k0 k') as [->|Hne'].
      * destruct (Z.eqb_spec k k'); [now subst|reflexivity].
      * exact IH.
Qed.

Lemma imagesOf_pushPhoto (m : photoMap) (k k' : Z) (url : jsstring) :
  imagesOf (pushPhoto m (k, url)) k'
  = if Z.eqb k k' then imagesOf m k' ++ [url] else imagesOf m k'.
Proof.
  unfold imagesOf, pushPhoto.
  destruct (getProperty m k) as [l|] eqn:E.
  - rewrite E, getProperty_setProperty.
    destruct (Z.eqb_spec k k') as [<-|_]; [now rewrite E|reflexivity].
  - rewrite getProperty_setProperty, Z.eqb_refl, !getProperty_setProperty.
    destruct (Z.eqb_spec k k') as [<-|_]; [now rewrite E|reflexivity].
Qed.

Lemma imagesOf_fold (rows : list (Z * jsstring)) (m : photoMap) (k : Z) :
  imagesOf (fold_left pushPhoto rows m) k
  = imagesOf m k ++ map snd (filter (fun p => Z.eqb (fst p) k) rows).
Proof.
  revert m. induction rows as [|[k0 url] rows IH]; intros m.
  - simpl. now rewrite app_nil_r.
  - cbn [fold_left filter fst]. rewrite IH, imagesOf_pushPhoto.
    destruct (Z.eqb k0 k); simpl; [now rewrite <- app_assoc|reflexivity].
Qed.

(** X18. The grouping of [GET /api/tweets] gives each tweet the urls of
    the photo rows with its id, in the order of the rows, and a tweet
    without photos the empty list; the output keeps the tweets in the
    order of the query. *)
Theorem photos_grouped_by_tweet (tweets : list tweet_result)
  (photos : list (Z * jsstring)) (k : Z) :
  imagesOf (groupPhotos photos) k
  = map snd (filter (fun p => Z.eqb (fst p) k) photos)
  /\ map json_id (tweetsOutput tweets photos) = map res_id tweets
  /\ map json_images (tweetsOutput tweets photos)
     = map (fun t => map snd (filter (fun p => Z.eqb (fst p) (res_id t)) photos))
           tweets.
Proof.
  assert (H : forall k', imagesOf (groupPhotos photos) k'
                         = map snd (filter (fun p => Z.eqb (fst p) k') photos)).
  { intros k'. unfold groupPhotos. now rewrite imagesOf_fold. }
  split; [apply H|]. unfold tweetsOutput. cbv zeta. rewrite !map_map. split.
  - reflexivity.
  - apply map_ext. intros t. apply H.
Qed.

Lemma filter_tweet_fresh (k : Z) (ps : list photo_row) :
  Forall (fun p => photo_tweet_id p <= k) ps ->
  filter (fun p => Z.eqb (fst p) (k + 1))
         (map (fun p => (photo_tweet_id p, photo_url p)) ps) = [].
Proof.
  induction 1 as [|p ps Hp _ IH]; [reflexivity|]. simpl.
  destruct (Z.eqb_spec (photo_tweet_id p) (k + 1)); [lia|exact IH].
Qed.

Lemma filter_new_photos (k k' : Z) (l : list jsstring) :
  map snd (filter (fun p => Z.eqb (fst p) k') (map (fun url => (k, url)) l))
  = if Z.eqb k k' then l else [].
Proof.
  induction l as [|url l IH]; simpl; [now destruct (Z.eqb k k')|].
  destruct (Z.eqb k k'); simpl; [now rewrite IH|exact IH].
Qed.

(** X19. A tweet just posted is shown by the grouping with exactly the
    first four images of its body, and the images of every other tweet
    are what they were. The tweet counter bounds the tweet ids of the
    photos, as an AUTOINCREMENT counter does. *)
Theorem posted_tweet_images (c : option jsstring) (authNow : Z)
  (text : jsstring) (images : option (list jsstring)) (now : Z)
  (db : database) (f : feed) (v : user_view) :
  fst (getUserFromSession c authNow db) = Some v ->
  Forall (fun p => photo_tweet_id p <= tweet_seq f) (photos f) ->
  let f' := snd (snd (postTweet c authNow text images now (db, f))) in
  imagesOf (groupPhotos (selectPhotos f')) (tweet_seq f + 1)
  = firstn 4 (match images with Some l => l | None => [] end)
  /\ forall k, k <> tweet_seq f + 1 ->
       imagesOf (groupPhotos (selectPhotos f')) k
       = imagesOf (groupPhotos (selectPhotos f)) k.
Proof.
  intros Hv Hwf f'.
  pose proof (postTweet_photos c authNow text images now db f v Hv) as Hp.
  fold f' in Hp.
  unfold groupPhotos. split.
  - rewrite imagesOf_fold, Hp, filter_app, map_app.
    unfold selectPhotos at 1. rewrite (filter_tweet_fresh _ _ Hwf).
    now rewrite filter_new_photos, Z.eqb_refl.
  - intros k Hk. rewrite !imagesOf_fold, Hp, filter_app, map_app, filter_new_photos.
    destruct (Z.eqb_spec (tweet_seq f + 1) k); [now contradiction Hk|].
    now rewrite app_nil_r.
Qed.

End MoreRoutes.

(** * Invariants of the tables *)

Section Invariants.

Variable LocalTZA : Z -> bool -> Z.
Variable monthStartDay : Z -> Z.
Variable encode : jsstring -> list Byte.byte.
Variable deriveBits :
  list Byte.byte -> list Byte.byte -> number -> N -> result (list Byte.byte).

Local Abbreviation handle := (handle LocalTZA monthStartDay encode deriveBits).
Local Abbreviation step := (step LocalTZA monthStartDay encode deriveBits).
Local Abbreviation steps := (steps LocalTZA monthStartDay encode deriveBits).

Local Open Scope Z_scope.

Lemma NoDup_map_filter {A B} (g : A -> B) (f : A -> bool) (l : list A) :
  NoDup (map g l) -> NoDup (map g (filter f l)).
Proof.
  induction l as [|a l IH]; [trivial|]. simpl. intros H.
  inversion H as [|? ? Hnin Hnd]; subst.
  destruct (f a); [|now apply IH]. simpl. constructor; [|now apply IH].
  intros Hin. apply Hnin. apply in_map_iff in Hin.
  destruct Hin as (b & Hb & Hin). apply filter_In in Hin.
  apply in_map_iff. exists b. tauto.
Qed.

Lemma NoDup_snoc {A} (l : list A) (x : A) :
  NoDup l -> ~ In x l -> NoDup (l ++ [x]).
Proof.
  induction l as [|a l IH]; intros Hnd Hnin; simpl.
  - constructor; [intros []|constructor].
  - inversion Hnd as [|? ? Ha Hl]; subst. constructor.
    + intros Hin. apply in_app_or in Hin. destruct Hin as [Hin|[->|[]]].
      * now apply Ha.
      * apply Hnin. now left.
    + apply IH; [exact Hl|]. intros Hin. apply Hnin. now right.
Qed.

Lemma filter_nil_not_in {A} (g : A -> jsstring) (e : jsstring) (l : list A) :
  filter (fun a => jsstring_eqb (g a) e) l = [] -> ~ In e (map g l).
Proof.
  intros Hf Hin. apply in_map_iff in Hin. destruct Hin as (a & <- & Hin).
  apply (filter_nonempty (fun a' => jsstring_eqb (g a') (g a)) l a Hin);
    [apply jsstring_eqb_refl|exact Hf].
Qed.

Lemma wf_database_ext (d1 d2 : database) :
  users d2 = users d1 -> sessions d2 = sessions d1 ->
  user_seq d2 = user_seq d1 ->
  wf_database d1 -> wf_database d2.
Proof. unfold wf_database. now intros -> -> ->. Qed.

Lemma wf_database_delete (d1 d2 : database) (f : session_row -> bool) :
  users d2 = users d1 -> sessions d2 = filter f (sessions d1) ->
  user_seq d2 = user_seq d1 ->
  wf_database d1 -> wf_database d2.
Proof.
  unfold wf_database. intros -> -> -> (H1 & H2 & H3 & H4 & H5).
  repeat split; try assumption. now apply NoDup_map_filter.
Qed.

Lemma wf_database_insert_session (d1 d2 : database) (row : session_row) :
  selectSessions (token row) d1 = [] ->
  users d2 = users d1 -> sessions d2 = sessions d1 ++ [row] ->
  user_seq d2 = user_seq d1 ->
  wf_database d1 -> wf_database d2.
Proof.
  unfold wf_database. intros Hs -> -> -> (H1 & H2 & H3 & H4 & H5).
  repeat split; try assumption.
  rewrite map_app. apply NoDup_snoc; [exact H5|].
  now apply filter_nil_not_in.
Qed.

Lemma wf_database_insert_user (d1 d2 : database) (e h n : jsstring) :
  selectUsersByEmail e d1 = [] -> selectUsersByUsername n d1 = [] ->
  users d2 = users d1 ++ [mkUser (user_seq d1 + 1) e h n None None] ->
  sessions d2 = sessions d1 ->
  user_seq d2 = user_seq d1 + 1 ->
  wf_database d1 -> wf_database d2.
Proof.
  unfold wf_database. intros He Hn -> -> -> (H1 & H2 & H3 & H4 & H5).
  rewrite !map_app. simpl. repeat split; try assumption.
  - apply NoDup_snoc; [exact H1|]. intros Hin. apply in_map_iff in Hin.
    destruct Hin as (u & Hu & Hin). rewrite Forall_forall in H2.
    specialize (H2 u Hin). lia.
  - apply Forall_app. split.
    + eapply Forall_impl; [|exact H2]. simpl. intros; lia.
    + constructor; [simpl; lia|constructor].
  - apply NoDup_snoc; [exact H3|]. now apply filter_nil_not_in.
  - apply NoDup_snoc; [exact H4|]. now apply filter_nil_not_in.
Qed.

Lemma wf_database_validate (c : option jsstring) (now : Z) (db : database) :
  wf_database db -> wf_database (snd (getUserFromSession c now db)).
Proof.
  intros Hwf. destruct (getUserFromSession_keeps c now db) as (Hu & Hq & _).
  destruct (getUserFromSession_sessions c now db) as [Hs|(t & Hs)].
  - now apply (wf_database_ext db).
  - now apply (wf_database_delete db _ (keeps t)).
Qed.

Lemma wf_database_handle (r : request) (db : database) :
  wf_database db -> wf_database (snd (handle r db)).
Proof.
  intros Hwf.
  destruct r as [e p n random t t0 t1|e p t t0 t1|c|c now]; simpl.
  - rewrite register_cases.
    destruct (selectUsersByEmail e db) eqn:Ee;
      [|now apply (wf_database_ext db)].
    destruct (selectUsersByUsername n db) eqn:En;
      [|now apply (wf_database_ext db)].
    destruct (hashPassword encode deriveBits p random) as [hashed|err];
      [|now apply (wf_database_ext db)].
    cbv zeta.
    match goal with
    | |- context [run (InsertSession _ _ _ _) ?d] =>
        set (db3 := d) in *;
        assert (H3 : wf_database db3)
          by (now apply (wf_database_insert_user db db3 e hashed n))
    end.
    destruct (selectSessions t db) eqn:Es.
    + eapply (wf_database_insert_session db3); [| |reflexivity| |exact H3];
        [exact Es|reflexivity|reflexivity].
    + revert H3. now apply wf_database_ext.
  - rewrite login_cases. cbv zeta.
    destruct (selectUsersByEmail e db) as [|user l];
      [now apply (wf_database_ext db)|].
    destruct (verifyPassword encode deriveBits p (password user)) as [[|]|err];
      try (now apply (wf_database_ext db)).
    destruct (selectSessions t db) eqn:Es;
      [|now apply (wf_database_ext db)].
    eapply wf_database_insert_session; [| |reflexivity| |exact Hwf];
      [exact Es|reflexivity|reflexivity].
  - destruct c as [[|x t]|]; simpl; try assumption.
    now apply (wf_database_delete db _ (keeps (x :: t))).
  - unfold me. pose proof (wf_database_validate c now db Hwf) as H.
    now destruct (getUserFromSession c now db) as [[u|] d].
Qed.

Lemma usernames_after_update (i : Z) (x : jsstring) (d ph : option jsstring)
  (l : list user_row) :
  NoDup (map id l) -> NoDup (map username l) ->
  (forall u, In u l -> id u <> i -> username u <> x) ->
  NoDup (map username
           (map (fun u => if Z.eqb (id u) i then setFields (Some x) d ph u else u)
                l)).
Proof.
  induction l as [|u l IH]; intros Hid Hname Hx; [constructor|].
  inversion Hid as [|? ? Hi Hid']; subst.
  inversion Hname as [|? ? Hn Hname']; subst.
  simpl. constructor.
  - intros Hin. rewrite map_map in Hin. apply in_map_iff in Hin.
    destruct Hin as (w & Hw & Hin).
    destruct (Z.eqb_spec (id u) i) as [Eu|Eu];
      destruct (Z.eqb_spec (id w) i) as [Ew|Ew]; simpl in Hw.
    + apply Hi. apply in_map_iff. exists w. split; [congruence|exact Hin].
    + apply (Hx w); [now right|exact Ew|exact Hw].
    + apply (Hx u); [now left|exact Eu|now symmetry].
    + apply Hn. apply in_map_iff. now exists w.
  - apply IH; try assumption. intros w Hw. apply Hx. now right.
Qed.

Lemma wf_database_update (c : option jsstring) (now : Z)
  (n d ph : option jsstring) (db : database) :
  wf_database db -> wf_database (snd (update c now n d ph db)).
Proof.
  intros Hwf.
  pose proof (wf_database_validate c now db Hwf) as Hv.
  destruct (update_sessions c now n d ph db) as [Hs Hq].
  destruct (getUserFromSession_keeps c now db) as (Hu & Hq' & _).
  destruct (update_users c now n d ph db)
    as [Hsame|(v & _ & _ & Ht & Hmap)].
  - apply (wf_database_ext (snd (getUserFromSession c now db)));
      try assumption; congruence.
  - destruct Hv as (H1 & H2 & H3 & H4 & H5). rewrite Hu in H1, H2, H3, H4.
    rewrite Hq' in H2.
    destruct (map_setFields_columns (view_id v) n d ph (users db))
      as (Ei & Ee & _).
    cbv zeta in Ei, Ee.
    unfold wf_database. rewrite Hmap, Hs, Hq, Ei, Ee.
    split; [exact H1|]. split.
    { apply Forall_forall. intros u Hin. apply in_map_iff in Hin.
      destruct Hin as (w & <- & Hin). rewrite Forall_forall in H2.
      specialize (H2 w Hin). now destruct (Z.eqb (id w) (view_id v)). }
    split; [exact H3|]. split; [|exact H5].
    destruct n as [x|].
    + unfold usernameTaken in Ht. rewrite Hu in Ht.
      apply andb_false_iff in Ht. destruct Ht as [Ht|Ht].
      * rewrite (map_ext_in _ (fun u => u)), map_id; [exact H4|].
        intros u Hin. destruct (Z.eqb (id u) (view_id v)) eqn:E; [|reflexivity].
        exfalso. assert (Hex : existsb (fun u => Z.eqb (id u) (view_id v))
                                 (users db) = true)
          by (apply existsb_exists; now exists u).
        rewrite Ht in Hex. discriminate Hex.
      * apply usernames_after_update; try assumption.
        intros u Hin Hne Hx.
        assert (Hex : existsb (fun u => negb (Z.eqb (id u) (view_id v))
                                        && jsstring_eqb (username u) x)
                        (users db) = true).
        { apply existsb_exists. exists u. split; [exact Hin|].
          apply andb_true_iff. split.
          - apply negb_true_iff. now apply Z.eqb_neq.
          - now apply jsstring_eqb_eq. }
        rewrite Ht in Hex. discriminate Hex.
    + rewrite map_map.
      rewrite (map_ext _ username); [exact H4|].
      intros u. now destruct (Z.eqb (id u) (view_id v)).
Qed.

Lemma photo_rows_of (k : Z) (rows : list photo_row) (l : list jsstring) :
  map (fun p => (photo_tweet_id p, photo_url p)) rows
  = map (fun url => (k, url)) l ->
  Forall (fun p => photo_tweet_id p = k) rows /\ length rows = length l.
Proof.
  revert l. induction rows as [|p rows IH]; intros [|url l] E;
    try discriminate E; [now split|].
  simpl in E. injection E as Hk _ E. destruct (IH l E) as [Hf Hl].
  split; [now constructor|simpl; now rewrite Hl].
Qed.

Lemma wf_feed_postTweet (c : option jsstring) (authNow : Z) (text : jsstring)
  (images : option (list jsstring)) (now : Z) (db : database) (f : feed) :
  wf_feed f ->
  wf_feed (snd (snd (postTweet c authNow text images now (db, f)))).
Proof.
  intros [Hle Hcount]. rewrite postTweet_cases. cbv zeta.
  destruct (fst (getUserFromSession c authNow db)) as [v|]; [|now split].
  cbn [snd].
  match goal with
  | |- context [fold_left ?g ?l ?f0] =>
      destruct (insertPhotos_effects (tweet_seq f + 1) l f0)
        as (_ & Hs & _ & rows & Hr & Hm);
      destruct (photo_rows_of _ _ _ Hm) as [Hk Hlen];
      assert (H4 : (length rows <= 4)%nat)
        by (rewrite Hlen, length_firstn; lia)
  end.
  cbv zeta in Hs, Hr. cbn [photos tweet_seq] in Hs, Hr.
  unfold wf_feed. rewrite Hs, Hr. split.
  - apply Forall_app. split.
    + eapply Forall_impl; [|exact Hle]. simpl. intros; lia.
    + eapply Forall_impl; [|exact Hk]. simpl. intros; lia.
  - intros k. rewrite filter_app, length_app.
    destruct (Z.eq_dec k (tweet_seq f + 1)) as [->|Hne].
    + assert (E : filter (fun p => Z.eqb (photo_tweet_id p) (tweet_seq f + 1))
                    (photos f) = []).
      { clear - Hle. induction Hle as [|p ps Hp _ IH]; [reflexivity|]. simpl.
        destruct (Z.eqb_spec (photo_tweet_id p) (tweet_seq f + 1)); [lia|exact IH]. }
      rewrite E. simpl. pose proof (filter_length_le
        (fun p => Z.eqb (photo_tweet_id p) (tweet_seq f + 1)) rows). lia.
    + assert (E : filter (fun p => Z.eqb (photo_tweet_id p) k) rows = []).
      { clear - Hk Hne. induction Hk as [|p ps Hp _ IH]; [reflexivity|]. simpl.
        destruct (Z.eqb_spec (photo_tweet_id p) k); [congruence|exact IH]. }
      rewrite E. simpl. specialize (Hcount k). lia.
Qed.

(** X20. The tables stay well formed under every modelled endpoint:
    after any sequence of register, login, logout, me, profile-update
    and post-tweet requests, user ids are distinct and bounded by their
    counter, emails, usernames and session tokens are distinct, every
    photo belongs to a tweet id already handed out, and no tweet has
    more than four photos. *)
Theorem tables_stay_well_formed (l : list action) (s : database * feed) :
  wf_database (fst s) -> wf_feed (snd s) ->
  wf_database (fst (steps l s)) /\ wf_feed (snd (steps l s)).
Proof.
  revert s. induction l as [|a l IH]; intros s Hd Hf; [now split|].
  simpl. apply IH.
  - destruct a as [r|c now n d ph|c authNow text images now]; simpl.
    + now apply wf_database_handle.
    + now apply wf_database_update.
    + destruct s as [db f]. rewrite postTweet_cases. cbv zeta.
      pose proof (wf_database_validate c authNow db Hd) as H.
      now destruct (fst (getUserFromSession c authNow db)).
  - destruct a as [r|c now n d ph|c authNow text images now]; simpl;
      try assumption.
    destruct s as [db f]. now apply wf_feed_postTweet.
Qed.

End Invariants.

(** * The further properties on concrete inputs *)

Section MoreInstances.

Local Open Scope Z_scope.

Local Abbreviation tok1 := (str "tok-1").
Local Abbreviation key4 := [Byte.xf7; Byte.xf8; Byte.xf9; Byte.xfa].
Local Abbreviation salt2 := [Byte.x01; Byte.x02].

Lemma hex2buf_rejects_only_odd_lengths_sample :
  hex2buf (str "abc") = Throw (Error_ "Invalid hex string")
  /\ exists buf, hex2buf (str "zz0f") = Ok buf /\ length buf = 2%nat.
Proof.
  split.
  - apply (proj2 (proj1 (hex2buf_rejects_only_odd_lengths (str "abc") [] []))).
    reflexivity.
  - apply (proj1 (proj2 (hex2buf_rejects_only_odd_lengths (str "zz0f") [] []))).
    reflexivity.
Defined.

Lemma verify_hex_case_sample :
  verifyPassword Sample.encode Sample.deriveBits (str "pw")
    (buf2hex salt2 ++ str ":" ++ map upperHex (buf2hex key4) ++ str ":"
       ++ toString10 7)
  = Ok false.
Proof.
  apply (proj2 (proj2 (verify_hex_case Sample.encode Sample.deriveBits
                         (str "pw") salt2 key4 7
                         ltac:(vm_compute; discriminate)))).
  - vm_compute. discriminate.
  - vm_compute. reflexivity.
Defined.

Lemma verify_true_only_on_derived_key_sample :
  exists saltHex iterStr salt bits,
    encodedCredential salt2 key4 7
    = saltHex ++ str ":" ++ buf2hex bits ++ str ":" ++ iterStr
    /\ split 58%N (encodedCredential salt2 key4 7)
       = [saltHex; buf2hex bits; iterStr]
    /\ hex2buf saltHex = Ok salt
    /\ Sample.deriveBits (Sample.encode (str "pw")) salt (Number_ iterStr)
         (N.of_nat (length bits) * 8) = Ok bits.
Proof.
  apply (verify_true_only_on_derived_key Sample.encode Sample.deriveBits
           (str "pw") (encodedCredential salt2 key4 7)).
  vm_compute. reflexivity.
Defined.

Lemma tampered_key_rejected_sample :
  verifyPassword Sample.encode Sample.deriveBits (str "pw")
    (encodedCredential salt2 key4 7) = Ok true
  /\ verifyPassword Sample.encode Sample.deriveBits (str "pw")
       (buf2hex salt2 ++ str ":" ++ str "f7f8f9fb" ++ str ":" ++ toString10 7)
     = Ok false.
Proof.
  apply (tampered_key_rejected Sample.encode Sample.deriveBits (str "pw")
           (str "f7f8f9fb") salt2 key4 7).
  - vm_compute. discriminate.
  - vm_compute. reflexivity.
  - reflexivity.
  - vm_compute. discriminate.
  - vm_compute. intuition discriminate.
Defined.

Lemma credential_determines_salt_and_key_sample :
  getRandomValues Sample.random7 SALT_LEN
  = getRandomValues (fun i => match i with O => Byte.x07 | _ => Sample.random7 i end)
      SALT_LEN.
Proof.
  apply (credential_determines_salt_and_key Sample.encode Sample.deriveBits
           Sample.hunter2 Sample.hunter2 Sample.random7
           (fun i => match i with O => Byte.x07 | _ => Sample.random7 i end)
           (encodedCredential Sample.salt7 Sample.key7 ITERATIONS)).
  - vm_compute. reflexivity.
  - vm_compute. reflexivity.
Defined.

Lemma colons_decide_malformed_sample :
  verifyPassword Sample.encode Sample.deriveBits (str "pw")
    (str "0102:f7f8f9fa:7:extra")
  = Throw MalformedCredential.
Proof.
  apply (proj1 (proj2 (colons_decide_malformed Sample.encode Sample.deriveBits
                         (str "pw") (str "0102:f7f8f9fa:7:extra")))).
  vm_compute. discriminate.
Defined.

Lemma register_then_validate_sample :
  fst (getUserFromSession (Some tok1) 6000
         (snd (handle Sample.LocalTZA Sample.monthStartDay Sample.encode
                 Sample.deriveBits (Sample.registerAlice 5000 5000)
                 Sample.emptyDB)))
  = Some (mkView 1 (str "alice@example.org") (str "alice") None None).
Proof.
  refine (proj1 (proj2 (register_then_validate Sample.LocalTZA
            Sample.monthStartDay Sample.encode Sample.deriveBits
            (str "alice@example.org") Sample.hunter2 (str "alice")
            Sample.random7 tok1 5000 5000 6000 Sample.emptyDB _ _
            (setCookie tok1 2592005000) _ _ _ _))).
  - vm_compute. reflexivity.
  - discriminate.
  - constructor.
  - vm_compute. reflexivity.
Defined.

Lemma register_then_login_sample :
  fst (Sample.login (str "alice@example.org") Sample.hunter2 (str "tok-2")
         7000 7000
         (snd (handle Sample.LocalTZA Sample.monthStartDay Sample.encode
                 Sample.deriveBits (Sample.registerAlice 5000 5000)
                 Sample.emptyDB)))
  = Ok (json_user (mkView 1 (str "alice@example.org") (str "alice") None None),
        setCookie (str "tok-2") 2592007000).
Proof.
  refine (register_then_login Sample.LocalTZA
            Sample.monthStartDay Sample.encode Sample.deriveBits
            (str "alice@example.org") Sample.hunter2 (str "alice")
            Sample.random7 tok1 (str "tok-2") 5000 5000 7000 7000
            Sample.emptyDB _ _ (setCookie tok1 2592005000) _ _ _).
  - vm_compute. reflexivity.
  - intros bits H. vm_compute in H. injection H as <-. reflexivity.
  - vm_compute. reflexivity.
Defined.

Lemma login_requires_verification_sample :
  fst (Sample.login (str "bob@example.org") (str "wrong") (str "tok-2")
         7000 7000 SampleRoutes.twoUsers)
  = Ok (json_error "Invalid credentials" 401, keepCookie)
  /\ sessions (snd (Sample.login (str "bob@example.org") (str "wrong")
                      (str "tok-2") 7000 7000 SampleRoutes.twoUsers))
     = sessions SampleRoutes.twoUsers.
Proof.
  destruct (proj2 (proj2 (login_requires_verification Sample.LocalTZA
              Sample.monthStartDay Sample.encode Sample.deriveBits
              (str "bob@example.org") (str "wrong") (str "tok-2") 7000 7000
              SampleRoutes.twoUsers))
              (mkUser 2 (str "bob@example.org")
                 (encodedCredential Sample.salt7 Sample.key7 ITERATIONS)
                 (str "bob") (Some (str "hi")) None) [])
    as (H1 & H2 & _).
  - vm_compute. reflexivity.
  - vm_compute. reflexivity.
  - exact (conj H1 H2).
Defined.

Lemma register_rejects_taken_sample :
  users (snd (Sample.register (str "new@example.org") Sample.hunter2
                (str "bob") Sample.random7 (str "tok-2") 7000 7000
                SampleRoutes.twoUsers))
  = users SampleRoutes.twoUsers.
Proof.
  apply (register_rejects_taken Sample.LocalTZA Sample.monthStartDay
           Sample.encode Sample.deriveBits (str "new@example.org")
           Sample.hunter2 (str "bob") Sample.random7 (str "tok-2") 7000 7000
           SampleRoutes.twoUsers).
  right. vm_compute. tauto.
Defined.

(** A session of user 9, who is not in the users table. *)
Lemma validation_effects_sample :
  fst (getUserFromSession (Some tok1) 50000
         (mkDB [] [mkSession 1 9 tok1 40 100] 0 1 [])) = None
  /\ sessions (snd (getUserFromSession (Some tok1) 50000
                      (mkDB [] [mkSession 1 9 tok1 40 100] 0 1 [])))
     = [mkSession 1 9 tok1 40 100].
Proof.
  apply (proj2 (proj2 (proj2 (proj2 (proj2
           (validation_effects (Some tok1) 50000
              (mkDB [] [mkSession 1 9 tok1 40 100] 0 1 []))))))
           tok1 (mkSession 1 9 tok1 40 100) []).
  - reflexivity.
  - discriminate.
  - reflexivity.
  - vm_compute. reflexivity.
  - reflexivity.
Defined.

Lemma other_sessions_unaffected_sample :
  fst (getUserFromSession (Some tok1) 50000
         (snd (logout (Some (str "tok-2")) SampleRoutes.twoUsers)))
  = fst (getUserFromSession (Some tok1) 50000 SampleRoutes.twoUsers).
Proof.
  apply (other_sessions_unaffected (Some (str "tok-2")) tok1 0 50000
           SampleRoutes.twoUsers).
  discriminate.
Defined.

Lemma cookie_matches_session_row_sample :
  issues (Sample.registerAlice 5000 5000) = Some tok1
  /\ selectSessions tok1 Sample.emptyDB = [].
Proof.
  destruct (cookie_matches_session_row Sample.LocalTZA Sample.monthStartDay
              Sample.encode Sample.deriveBits (Sample.registerAlice 5000 5000)
              Sample.emptyDB
              (json_user (mkView 1 (str "alice@example.org") (str "alice")
                            None None))
              tok1 2592005000) as (H1 & H2 & _).
  - vm_compute. reflexivity.
  - exact (conj H1 H2).
Defined.

Lemma update_frame_sample :
  fst (update None 50000 (Some (str "eve")) None None SampleRoutes.twoUsers)
  = Ok (json_error "Unauthorized" 401, keepCookie)
  /\ users (snd (update None 50000 (Some (str "eve")) None None
                   SampleRoutes.twoUsers))
     = users SampleRoutes.twoUsers.
Proof.
  apply (proj1 (proj2 (proj2 (proj2 (proj2 (proj2
           (update_frame None 50000 (Some (str "eve")) None None
              SampleRoutes.twoUsers))))))).
  reflexivity.
Defined.

Lemma update_then_validate_sample :
  fst (getUserFromSession (Some tok1) 60000
         (snd (update (Some tok1) 50000 (Some (str "al")) None
                 (Some (str "p.png")) SampleRoutes.twoUsers)))
  = Some (mkView 1 (str "alice@example.org") (str "al") None
            (Some (str "p.png"))).
Proof.
  apply (update_then_validate (Some tok1) 50000 60000 (Some (str "al")) None
           (Some (str "p.png")) SampleRoutes.twoUsers
           (mkView 1 (str "alice@example.org") (str "alice") None None)).
  - vm_compute. reflexivity.
  - vm_compute. reflexivity.
Defined.

Lemma postTweet_effects_sample :
  fst (postTweet (Some tok1) 50000 (str "hello")
         (Some SampleRoutes.fiveImages) 60000
         (SampleRoutes.twoUsers, SampleRoutes.emptyFeed))
  = tweet_created 1 1 (str "hello") SampleRoutes.fiveImages 60
  /\ selectPhotos
       (snd (snd (postTweet (Some tok1) 50000 (str "hello")
                    (Some SampleRoutes.fiveImages) 60000
                    (SampleRoutes.twoUsers, SampleRoutes.emptyFeed))))
     = [(1, str "a.png"); (1, str "b.png"); (1, str "c.png"); (1, str "d.png")].
Proof.
  destruct (proj2 (postTweet_effects (Some tok1) 50000 (str "hello")
              (Some SampleRoutes.fiveImages) 60000 SampleRoutes.twoUsers
              SampleRoutes.emptyFeed)
              (mkView 1 (str "alice@example.org") (str "alice") None None))
    as (H1 & _ & _ & H4 & _).
  - vm_compute. reflexivity.
  - exact (conj H1 H4).
Defined.

Lemma posted_tweet_images_sample :
  imagesOf
    (groupPhotos
       (selectPhotos
          (snd (snd (postTweet (Some tok1) 50000 (str "hello")
                       (Some SampleRoutes.fiveImages) 60000
                       (SampleRoutes.twoUsers, SampleRoutes.emptyFeed))))))
    1
  = [str "a.png"; str "b.png"; str "c.png"; str "d.png"].
Proof.
  apply (posted_tweet_images (Some tok1) 50000 (str "hello")
           (Some SampleRoutes.fiveImages) 60000 SampleRoutes.twoUsers
           SampleRoutes.emptyFeed
           (mkView 1 (str "alice@example.org") (str "alice") None None)).
  - vm_compute. reflexivity.
  - constructor.
Defined.

Lemma tables_stay_well_formed_sample :
  wf_database
    (fst (SampleRoutes.steps
            [PostTweet (Some tok1) 50000 (str "hello")
               (Some SampleRoutes.fiveImages) 60000;
             Update (Some tok1) 61000 (Some (str "bob")) None None;
             Auth (Sample.registerAlice 70000 70000);
             Auth (Logout (Some tok1))]
            (SampleRoutes.twoUsers, SampleRoutes.emptyFeed)))
  /\ wf_feed
       (snd (SampleRoutes.steps
               [PostTweet (Some tok1) 50000 (str "hello")
                  (Some SampleRoutes.fiveImages) 60000;
                Update (Some tok1) 61000 (Some (str "bob")) None None;
                Auth (Sample.registerAlice 70000 70000);
                Auth (Logout (Some tok1))]
               (SampleRoutes.twoUsers, SampleRoutes.emptyFeed))).
Proof.
  apply (tables_stay_well_formed Sample.LocalTZA Sample.monthStartDay
           Sample.encode Sample.deriveBits).
  - unfold wf_database. simpl.
    repeat split;
      repeat (constructor; simpl; try lia; try (intuition discriminate)).
  - split; [constructor|]. intros k. simpl. lia.
Defined.

End MoreInstances.
